(** * charm-revisions: the revision reconciliation walk of get-charm-revisions.py

    A shallow embedding of the three parts of the script:
    - [CharmInfo.get_charmstore_revisions], the walk over the charmstore
      revisions of one charm,
    - [CharmGit.stable_sha_dict], the commit window of the stable branches,
    - [main], which joins both and rewrites the YAML store,
    followed by the properties of the specification that concern them.

    Python dictionaries whose iteration order the script relies on
    ([revision_hash], the [OrderedDict] of commits) are association lists in
    insertion order; dictionaries that are only looked up, merged and dumped
    with sorted keys (the revision records and the YAML store) are finite
    maps. Texts are strings of one-byte characters, on which the classes
    [\d] and [.] of Python's [re] are the decimal digits and every character
    but the line feed. *)

From Stdlib Require Import ZArith Ascii String List Bool Lia.
From Stdlib Require Import DecimalString DecimalN DecimalPos.
From stdpp Require Import base option list gmap strings sorting.

Local Open Scope string_scope.
Local Open Scope Z_scope.
Local Open Scope list_scope.

(** ** Exceptions *)

(** What can end a run other than reaching the end of [main]. *)
Inductive exn : Type :=
  | KeyError          (* a missing dictionary key *)
  | CharmstoreError   (* an exception of the charmstore client that no clause catches *)
  | GithubError       (* any exception of the GitHub client *)
  | IndexError        (* an index out of range *)
  | Unfinished.       (* the repo-info loop is still running when the fuel is spent *)

Inductive result (A : Type) : Type :=
  | Ok (a : A)
  | Raise (e : exn).
Arguments Ok {A} a.
Arguments Raise {A} e.

#[global] Instance result_bind : MBind result :=
  fun A B (k : A -> result B) (r : result A) =>
    match r with
    | Ok a => k a
    | Raise e => Raise e
    end.

(** ** Insertion-ordered dictionaries *)

Module PyDict.
Section Dict.
Context {K V : Type} `{EqDecision K}.

(** [d[k] = v]: an existing key keeps its place and gets the new value, a
    new key goes to the end. *)
Fixpoint set (k : K) (v : V) (d : list (K * V)) : list (K * V) :=
  match d with
  | [] => [(k, v)]
  | (k', v') :: d' =>
      if decide (k' = k) then (k, v) :: d' else (k', v') :: set k v d'
  end.

(** [d.get(k)] *)
Fixpoint get (k : K) (d : list (K * V)) : option V :=
  match d with
  | [] => None
  | (k', v') :: d' => if decide (k' = k) then Some v' else get k d'
  end.

(** [list(d.keys())] *)
Definition keys (d : list (K * V)) : list K := map fst d.
End Dict.
End PyDict.

(** ** Regular expressions of the script *)

Module Re.

Definition chars (s : string) : list ascii := list_ascii_of_string s.
Definition text (l : list ascii) : string := string_of_list_ascii l.

Definition is_newline (c : ascii) : bool := (nat_of_ascii c =? 10)%nat.

(** [.] *)
Definition any_char (c : ascii) : bool := negb (is_newline c).

(** [\d] *)
Definition is_digit (c : ascii) : bool :=
  ((48 <=? nat_of_ascii c) && (nat_of_ascii c <=? 57))%nat.

(** [[\da-f]] *)
Definition is_hex (c : ascii) : bool :=
  is_digit c || ((97 <=? nat_of_ascii c) && (nat_of_ascii c <=? 102))%nat.

Definition is_slash (c : ascii) : bool := (nat_of_ascii c =? 47)%nat.

(** A literal piece of a pattern matched at the head of [s]; the rest of
    [s] is returned. *)
Fixpoint literal (p s : list ascii) : option (list ascii) :=
  match p, s with
  | [], _ => Some s
  | _ :: _, [] => None
  | a :: p', b :: s' => if decide (a = b) then literal p' s' else None
  end.

(** The longest prefix of [s] whose characters satisfy [f]: a greedy
    [[...]+] or [.+] before it gives anything back. *)
Fixpoint run (f : ascii -> bool) (s : list ascii) : list ascii :=
  match s with
  | [] => []
  | c :: s' => if f c then c :: run f s' else []
  end.

Fixpoint after_run (f : ascii -> bool) (s : list ascii) : list ascii :=
  match s with
  | [] => []
  | c :: s' => if f c then after_run f s' else s
  end.

(** [re.search]: the match at the leftmost position where one exists. *)
Fixpoint search {A : Type} (m : list ascii -> option A) (s : list ascii)
  : option A :=
  match m s with
  | Some r => Some r
  | None =>
      match s with
      | [] => None
      | _ :: s' => search m s'
      end
  end.

(** [commit-sha-1: ([\da-f]+)] at the head of [s]; group 1. *)
Definition commit_at (s : list ascii) : option (list ascii) :=
  match literal (chars "commit-sha-1: ") s with
  | Some rest =>
      match run is_hex rest with
      | [] => None
      | g => Some g
      end
  | None => None
  end.

(** [(.+)/(.+)] on a line: the first group is as long as a following
    slash and a non-empty second group allow. [seen] is what the first
    group has taken so far. *)
Fixpoint owner_repo (seen line : list ascii) : option (list ascii * list ascii) :=
  match line with
  | [] => None
  | c :: rest =>
      match owner_repo (seen ++ [c]) rest with
      | Some r => Some r
      | None =>
          if is_slash c && negb (bool_decide (seen = []))
                        && negb (bool_decide (rest = []))
          then Some (seen, rest) else None
      end
  end.

(** [remote: https://github.com/(.+)/(.+)] at the head of [s]; groups 1
    and 2. The dot of [github.com] is the pattern's [.]. *)
Definition remote_at (s : list ascii) : option (list ascii * list ascii) :=
  match literal (chars "remote: https://github") s with
  | Some (c :: s1) =>
      if any_char c then
        match literal (chars "com/") s1 with
        | Some s2 => owner_repo [] (run any_char s2)
        | None => None
        end
      else None
  | _ => None
  end.

(** [re.search(r"commit-sha-1: ([\da-f]+)", t)], group 1 *)
Definition search_commit (t : string) : option string :=
  text <$> search commit_at (chars t).

(** [re.search(r"remote: https://github.com/(.+)/(.+)", t)], groups 1, 2 *)
Definition search_remote (t : string) : option (string * string) :=
  (fun g => (text g.1, text g.2)) <$> search remote_at (chars t).

(** [re.search(r"^stable/.+$", name)] as a truth value: [^] is the start
    of the name, [$] its end or the place before a line feed that ends
    it. *)
Definition is_stable (name : string) : bool :=
  match literal (chars "stable/") (chars name) with
  | Some rest =>
      negb (bool_decide (run any_char rest = [])) &&
      match after_run any_char rest with
      | [] => true
      | [c] => is_newline c
      | _ => false
      end
  | None => false
  end.

End Re.

(** ** The charmstore *)

(** The answers of [CharmStore.files(location)]. *)
Inductive files_response : Type :=
  | FilesOk (names : list string)   (* the keys of the returned dictionary *)
  | FilesEntityNotFound
  | FilesInteractionError
  | FilesServerError
  | FilesOtherError.

(** The answers of
    [CharmStore.files(location, filename="repo-info", read_file=True)]. *)
Inductive read_response : Type :=
  | ReadOk (content : string)
  | ReadServerError
  | ReadOtherError.

(** The charmstore as the script sees it. The location [f"{name}-{revision}"]
    is kept as the pair of its parts, and a call is answered by the number
    of calls of the same kind made before it for the same location during
    the walk. [cs_entity_revision] is the number that lines 44-46 read off
    the end of the entity's [Id]; [None] when the lookup or the match
    raises. *)
Record charmstore : Type := {
  cs_entity_revision : string -> option N;
  cs_files : string -> Z -> nat -> files_response;
  cs_read : string -> Z -> nat -> read_response
}.

(** A revision record: a dictionary from field names to strings. *)
Abbreviation record := (gmap string string).

(** [revision_hash]: revision number to record, in insertion order. *)
Abbreviation revision_hash := (list (Z * gmap string string)).

(** [range(start, stop, -1)] *)
Definition range_down (start stop : Z) : list Z :=
  map (fun i : nat => start - Z.of_nat i) (seq 0 (Z.to_nat (start - stop))).

Module CharmInfo.
Section Scanner.
Variable cs : charmstore.
Variable name : string.

(** Lines 97-114, the [else] clause of the repo-info fetch. *)
Definition record_repo_info (revision : Z) (repo_info : string)
    (h : revision_hash) : revision_hash :=
  match Re.search_commit repo_info with
  | Some sha =>
      let h1 := PyDict.set revision ({[ "sha" := sha ]} : record) h in
      match Re.search_remote repo_info with
      | Some (user, repo) =>
          match PyDict.get revision h1 with
          | Some r =>
              let h2 := PyDict.set revision (<[ "user" := user ]> r) h1 in
              match PyDict.get revision h2 with
              | Some r' => PyDict.set revision (<[ "repo" := repo ]> r') h2
              | None => h2
              end
          | None => h1
          end
      | None => h1
      end
  | None => h
  end.

(** Lines 88-114: [while not repo_info]. [attempt] counts the fetches
    made so far for this revision; the loop has no counter of its own, so
    the model stops with [Unfinished] when [fuel] fetches did not end
    it. *)
Fixpoint repo_info_loop (fuel : nat) (revision : Z) (attempt : nat)
    (h : revision_hash) : result revision_hash :=
  match fuel with
  | O => Raise Unfinished
  | S fuel' =>
      match cs_read cs name revision attempt with
      | ReadServerError => repo_info_loop fuel' revision (S attempt) h
      | ReadOtherError => Raise CharmstoreError
      | ReadOk repo_info =>
          let h' := record_repo_info revision repo_info h in
          if bool_decide (repo_info = "")
          then repo_info_loop fuel' revision (S attempt) h'
          else Ok h'
      end
  end.

(** Lines 61-114: [while retry > 0 and cs_files is None]. After an answer
    with files [cs_files] is set, so the loop is left whatever its [else]
    clause did. [budget] bounds the iterations of the model; the initial
    [retry] of 3 never uses it up ([files_loop_budget]). *)
Fixpoint files_loop (budget fuel : nat) (revision : Z) (attempt : nat)
    (retry : Z) (h : revision_hash) : result revision_hash :=
  if retry >? 0 then
    match budget with
    | O => Raise Unfinished
    | S budget' =>
        match cs_files cs name revision attempt with
        | FilesOk names =>
            if bool_decide ("repo-info" ∈ names)
            then repo_info_loop fuel revision 0 h
            else Ok h
        | FilesEntityNotFound =>
            files_loop budget' fuel revision (S attempt) (-1) h
        | FilesInteractionError =>
            files_loop budget' fuel revision (S attempt) (-1) h
        | FilesServerError =>
            files_loop budget' fuel revision (S attempt) (retry - 1) h
        | FilesOtherError => Raise CharmstoreError
        end
    end
  else Ok h.

(** The body of the [for] loop, lines 55-114. *)
Definition scan_revision (fuel : nat) (revision : Z) (h : revision_hash)
  : result revision_hash :=
  files_loop 3 fuel revision 0 3 h.

(** The [for] loop over the candidate revisions. *)
Fixpoint scan_revisions (fuel : nat) (revisions : list Z)
    (h : revision_hash) : result revision_hash :=
  match revisions with
  | [] => Ok h
  | revision :: rest =>
      h' ← scan_revision fuel revision h;
      scan_revisions fuel rest h'
  end.

(** Lines 51-53: what [self.last_checked_revision] is when the loop
    starts. *)
Definition effective_last_checked (last_revision : Z)
    (last_checked_revision : Z) : Z :=
  if last_revision =? 0 then -1 else last_checked_revision.

(** The revisions the [for] loop visits, in order. *)
Definition candidates (last_revision last_checked_revision : Z) : list Z :=
  range_down last_revision
    (effective_last_checked last_revision last_checked_revision).

(** [get_charmstore_revisions] *)
Definition get_charmstore_revisions (fuel : nat)
    (last_checked_revision : Z) : result revision_hash :=
  match cs_entity_revision cs name with
  | None => Raise CharmstoreError
  | Some n =>
      let last_revision := Z.of_N n in
      scan_revisions fuel
        (candidates last_revision last_checked_revision) []
  end.

End Scanner.
End CharmInfo.

Arguments CharmInfo.scan_revision : simpl never.
Arguments CharmInfo.record_repo_info : simpl never.

(** ** GitHub *)

(** A branch as [repo.get_branches()] lists it, with the commits that
    [repo.get_commits(sha=branch.name)] yields for it, newest first. *)
Record branch : Type := {
  branch_name : string;
  branch_commits : list string
}.

(** The branches of the repository of a user, in the order in which GitHub
    enumerates them; [None] when the client raises. *)
Definition github : Type := string -> string -> option (list branch).

(** The [OrderedDict] from commit to branch name. *)
Abbreviation commit_dict := (list (string * string)).

Definition STABLE_COMMIT_LOOKBACK : nat := 20.

Module CharmGit.

(** Lines 143-147: [for num, commit in enumerate(..., 1)], left by
    [break] when [num == limit]. *)
Fixpoint commits_loop (num : nat) (name : string) (shas : list string)
    (commits : commit_dict) : commit_dict :=
  match shas with
  | [] => commits
  | sha :: rest =>
      let commits' := PyDict.set sha name commits in
      if (num =? STABLE_COMMIT_LOOKBACK)%nat then commits'
      else commits_loop (S num) name rest commits'
  end.

(** Lines 136-147: [for branch in repo.get_branches()]. *)
Fixpoint branches_loop (branches : list branch) (commits : commit_dict)
  : commit_dict :=
  match branches with
  | [] => commits
  | b :: rest =>
      if Re.is_stable (branch_name b)
      then branches_loop rest
             (commits_loop 1 (branch_name b) (branch_commits b) commits)
      else branches_loop rest commits
  end.

(** [stable_sha_dict] once the branches are known. *)
Definition stable_commits (branches : list branch) : commit_dict :=
  branches_loop branches [].

(** [CharmGit(user, repo).stable_sha_dict] *)
Definition stable_sha_dict (gh : github) (user repo : string)
  : result commit_dict :=
  match gh user repo with
  | Some branches => Ok (stable_commits branches)
  | None => Raise GithubError
  end.

End CharmGit.

(** ** The YAML store and [main] *)

(** The value stored for a charm when it is a mapping: the entry
    [last_revision], if there is one, and the records under the revision
    numbers. *)
Record details : Type := {
  last_revision : option Z;
  revisions : gmap Z (gmap string string)
}.

Definition no_details : details :=
  {| last_revision := None; revisions := ∅ |}.

(** A value of the store: a mapping, or anything else (a bare number, a
    null). *)
Inductive yaml_value : Type :=
  | YDict (d : details)
  | YOther.

(** [charm_data], and the content of charm_revisions.yaml. *)
Abbreviation store := (gmap string yaml_value).

(** What [main] holds while it runs: the loaded data and the file. *)
Record state : Type := {
  charm_data : store;
  yaml_file : store
}.

(** [yaml.dump(charm_data, f, sort_keys=True)] *)
Definition dump (cd : store) : state :=
  {| charm_data := cd; yaml_file := cd |}.

Module Main.
Section Reconciler.
Variable cs : charmstore.
Variable gh : github.
Variable fuel : nat.

(** Lines 184-195: the commit dictionary of the first revision that has
    a user. *)
Fixpoint find_hashes (revision_detail : revision_hash)
  : result (option commit_dict) :=
  match revision_detail with
  | [] => Ok None
  | (revision, revision_data) :: rest =>
      match revision_data !! "user" with
      | Some user =>
          match revision_data !! "repo" with
          | Some repo =>
              hashes ← CharmGit.stable_sha_dict gh user repo;
              Ok (Some hashes)
          | None => Raise KeyError
          end
      | None => find_hashes rest
      end
  end.

(** Lines 200-203: [for commit_sha, branch in hashes.items()]. *)
Fixpoint release_loop (hashes : commit_dict) (revision_data : record)
  : result record :=
  match hashes with
  | [] => Ok revision_data
  | (commit_sha, branch_) :: rest =>
      match revision_data !! "sha" with
      | Some sha =>
          if decide (sha = commit_sha)
          then Ok (<[ "release" := branch_ ]> revision_data)
          else release_loop rest revision_data
      | None => Raise KeyError
      end
  end.

(** Lines 205-208: [update] of the stored record, or a new entry. *)
Definition store_revision (revision : Z) (revision_data : record)
    (d : details) : details :=
  match revisions d !! revision with
  | Some stored =>
      {| last_revision := last_revision d;
         revisions := <[ revision := revision_data ∪ stored ]> (revisions d) |}
  | None =>
      {| last_revision := last_revision d;
         revisions := <[ revision := revision_data ]> (revisions d) |}
  end.

(** Lines 198-208: [for revision in revision_detail]. *)
Fixpoint join_loop (hashes : commit_dict) (revision_detail : revision_hash)
    (d : details) : result details :=
  match revision_detail with
  | [] => Ok d
  | (revision, revision_data) :: rest =>
      revision_data' ← release_loop hashes revision_data;
      join_loop hashes rest (store_revision revision revision_data' d)
  end.

(** [sorted(revision_detail.keys())[-1]] *)
Definition last_sorted_key (revision_detail : revision_hash) : option Z :=
  last (merge_sort Z.le (PyDict.keys revision_detail)).

Definition set_last_revision (r : Z) (d : details) : details :=
  {| last_revision := Some r; revisions := revisions d |}.

(** Lines 162-168: the stored value as a mapping, [{}] when it is not
    one. *)
Definition as_details (v : yaml_value) : details :=
  match v with
  | YDict d => d
  | YOther => no_details
  end.

(** The body of [for charm in charmlist], lines 162-216. The dump of
    lines 210-211 and the dump of lines 215-216 are one here: no statement
    between them raises, and the second one rewrites the whole file. *)
Definition process_charm (charm : string) (s : state) : result state :=
  match charm_data s !! charm with
  | None => Raise KeyError
  | Some v =>
      let d := as_details v in
      let cd := match v with
                | YDict _ => charm_data s
                | YOther => <[ charm := YDict no_details ]> (charm_data s)
                end in
      let last_rev := default 0 (last_revision d) in
      revision_detail ←
        CharmInfo.get_charmstore_revisions cs charm fuel last_rev;
      if bool_decide (length revision_detail = 0%nat)
      then Ok {| charm_data := cd; yaml_file := yaml_file s |}
      else
        hashes ← find_hashes revision_detail;
        d1 ← match hashes with
             | Some h => join_loop h revision_detail d
             | None => Ok d
             end;
        match last_sorted_key revision_detail with
        | Some r =>
            Ok (dump (<[ charm := YDict (set_last_revision r d1) ]> cd))
        | None => Raise IndexError
        end
  end.

(** [for charm in charmlist]. The result is the file when the loop ends,
    and the exception that ended it, if any; an exception in the body comes
    before its dump, so the file is then the one the body started with. *)
Fixpoint charms_loop (charmlist : list string) (s : state)
  : store * option exn :=
  match charmlist with
  | [] => (yaml_file s, None)
  | charm :: rest =>
      match process_charm charm s with
      | Ok s' => charms_loop rest s'
      | Raise e => (yaml_file s, Some e)
      end
  end.

(** [sorted(list(charm_data.keys()))] *)
Definition charmlist (cd : store) : list string :=
  merge_sort (fun a b : string => String.leb a b) (elements (dom cd)).

(** [main], from the content of the file before the run to its content
    after it. *)
Definition main (file : store) : store * option exn :=
  charms_loop (charmlist file) (dump file).

End Reconciler.
End Main.

Arguments Main.process_charm : simpl never.
Arguments CharmInfo.get_charmstore_revisions : simpl never.

(** ** Definitions for the statements *)

(** A record as the scanner builds it: a commit, and a user exactly when
    there is a repository. *)
Definition scanned (r : record) : Prop :=
  is_Some (r !! "sha") /\ (is_Some (r !! "user") <-> is_Some (r !! "repo")).

(** The record that lines 100-111 build from a repo-info text. *)
Definition repo_info_record (repo_info : string) : option record :=
  match Re.search_commit repo_info with
  | Some sha =>
      match Re.search_remote repo_info with
      | Some (user, repo) =>
          Some (<[ "repo" := repo ]> (<[ "user" := user ]> {[ "sha" := sha ]}))
      | None => Some {[ "sha" := sha ]}
      end
  | None => None
  end.

(** [sha] is a commit that the text names: a non-empty run of hexadecimal
    digits right after the label. *)
Definition names_commit (repo_info sha : string) : Prop :=
  sha <> "" /\ Forall (fun c => Re.is_hex c = true) (Re.chars sha) /\
  exists pre post,
    Re.chars repo_info =
    pre ++ Re.chars "commit-sha-1: " ++ Re.chars sha ++ post.

(** [user] and [repo] are the two parts of a GitHub remote that the text
    names; [c] is the character that the pattern's dot stands for. *)
Definition names_remote (repo_info user repo : string) : Prop :=
  user <> "" /\ repo <> "" /\
  exists pre c post,
    Re.chars repo_info =
    pre ++ Re.chars "remote: https://github" ++ c ::
    Re.chars "com/" ++ Re.chars user ++ "/"%char :: Re.chars repo ++ post.

(** What [re.search] does with the two patterns, said without the
    matchers: where a pattern can match, and what its groups are there. *)

(** A greedy run of characters of the class [f] ends before [rest]: at the
    end of the text or at a character outside the class. *)
Definition stops (f : ascii -> bool) (rest : list ascii) : Prop :=
  match rest with
  | [] => True
  | c :: _ => f c = false
  end.

Definition commit_label : list ascii := Re.chars "commit-sha-1: ".

(** [commit-sha-1: ([\da-f]+)] can match at the head of [s]: the label and
    one hexadecimal digit are there. *)
Definition commit_starts (s : list ascii) : Prop :=
  exists c rest, Re.is_hex c = true /\ s = commit_label ++ c :: rest.

(** [g] is group 1 of the match at the head of [s]: all the hexadecimal
    digits that follow the label. *)
Definition commit_here (s g : list ascii) : Prop :=
  g <> [] /\ Forall (fun c => Re.is_hex c = true) g /\
  exists rest, stops Re.is_hex rest /\ s = commit_label ++ g ++ rest.

(** No place of the text starts a commit. *)
Definition no_commit (t : list ascii) : Prop :=
  forall a b, t = a ++ b -> ~ commit_starts b.

(** [g] is group 1 of the search: of the match at the leftmost place of [t]
    where the pattern can match, on whatever line that is. *)
Definition first_commit (t g : list ascii) : Prop :=
  exists pre post,
    t = pre ++ post /\ commit_here post g /\
    forall a b, pre = a ++ b -> b <> [] -> ~ commit_starts (b ++ post).

Definition remote_label : list ascii := Re.chars "remote: https://github".

(** [remote: https://github.com/(.+)/(.+)] can match at the head of [s]:
    the label with any character but a line feed for its dot, then on the
    same line a character or more, a slash and a character. *)
Definition remote_starts (s : list ascii) : Prop :=
  exists c u y rest,
    Re.any_char c = true /\ u <> [] /\
    Forall (fun c => Re.any_char c = true) u /\ Re.any_char y = true /\
    s = remote_label ++ c :: Re.chars "com/" ++ u ++ "/"%char :: y :: rest.

(** [u] and [r] are groups 1 and 2 of the match at the head of [s]: [r]
    goes to the end of the line, and [u] is as long as a slash with a
    character after it allows, so that [r] has no slash before its last
    character. *)
Definition remote_here (s u r : list ascii) : Prop :=
  u <> [] /\ r <> [] /\
  Forall (fun c => Re.any_char c = true) u /\
  Forall (fun c => Re.any_char c = true) r /\
  (forall r1 r2, r = r1 ++ "/"%char :: r2 -> r2 = []) /\
  exists c rest,
    Re.any_char c = true /\ stops Re.any_char rest /\
    s = remote_label ++ c :: Re.chars "com/" ++ u ++ "/"%char :: r ++ rest.

(** No place of the text starts a remote. *)
Definition no_remote (t : list ascii) : Prop :=
  forall a b, t = a ++ b -> ~ remote_starts b.

Definition first_remote (t u r : list ascii) : Prop :=
  exists pre post,
    t = pre ++ post /\ remote_here post u r /\
    forall a b, pre = a ++ b -> b <> [] -> ~ remote_starts (b ++ post).

(** What a walk step can do to the dictionary: nothing, or one entry for
    its own revision. *)
Definition step_of (revision : Z) (h h' : revision_hash) : Prop :=
  h' = h \/ exists r, scanned r /\ h' = PyDict.set revision r h.

(** The commits of a branch that [stable_sha_dict] looks at. *)
Definition lookback_window (b : branch) : list string :=
  take STABLE_COMMIT_LOOKBACK (branch_commits b).

(** [commits[sha] = name] for each commit of a list in turn. *)
Definition set_all (name : string) (shas : list string)
    (commits : commit_dict) : commit_dict :=
  foldl (fun c sha => PyDict.set sha name c) commits shas.

(** The charms of a list processed in turn, as long as none raises. *)
Fixpoint run_charms (cs : charmstore) (gh : github) (fuel : nat)
    (l : list string) (s : state) : result state :=
  match l with
  | [] => Ok s
  | charm :: rest =>
      s' ← Main.process_charm cs gh fuel charm s;
      run_charms cs gh fuel rest s'
  end.

(** [charm_data] after the first lines of the loop body. *)
Definition normalized (charm : string) (v : yaml_value) (cd : store)
  : store :=
  match v with
  | YDict _ => cd
  | YOther => <[ charm := YDict no_details ]> cd
  end.

(** ** Concrete charmstores and repositories *)

Definition example_repo_info : string :=
  "commit-sha-1: 1a2b3c4d
commit-short: 1a2b3c4
branch: refs/heads/master
remote: https://github.com/canonical/example-charm
info-generated: Mon Mar  2 10:12:35 UTC 2020
".

(** A repo-info whose commit is on its second line, and one where a line
    without a commit follows the remote. *)
Definition commit_on_line_2 : string :=
  "branch: refs/heads/master
commit-sha-1: 1a2b3c4d
".

Definition remote_with_path : string :=
  "remote: https://github.com/canonical/charms/example-charm
commit-sha-1: 00ff x".

(** A charm whose only revision is 0, with the repo-info above. *)
Definition new_charm_store : charmstore := {|
  cs_entity_revision := fun _ => Some 0%N;
  cs_files := fun _ _ _ => FilesOk ["metadata.yaml"; "repo-info"];
  cs_read := fun _ _ _ => ReadOk example_repo_info
|}.

(** A charm at revision 12 whose repo-info files name a commit and no
    GitHub remote. *)
Definition no_remote_store : charmstore := {|
  cs_entity_revision := fun _ => Some 12%N;
  cs_files := fun _ _ _ => FilesOk ["repo-info"];
  cs_read := fun _ revision _ =>
    ReadOk (if revision =? 12 then "commit-sha-1: aa" else "commit-sha-1: bb")
|}.

(** A charm at revision 12 whose repo-info file is there and empty. *)
Definition empty_repo_info_store : charmstore := {|
  cs_entity_revision := fun _ => Some 12%N;
  cs_files := fun _ _ _ => FilesOk ["repo-info"];
  cs_read := fun _ _ _ => ReadOk ""
|}.

(** A charm at revision 12 whose file listing of revision 12 times out
    three times; revision 11 answers at once. *)
Definition timeout_store : charmstore := {|
  cs_entity_revision := fun _ => Some 12%N;
  cs_files := fun _ revision attempt =>
    if (revision =? 12) && (attempt <? 3)%nat then FilesServerError
    else FilesOk ["repo-info"];
  cs_read := fun _ _ _ => ReadOk example_repo_info
|}.

(** Two stable branches that share their tip. *)
Definition shared_tip_branches : list branch :=
  [ {| branch_name := "stable/20.04"; branch_commits := ["c1"; "c0"] |};
    {| branch_name := "stable/21.04"; branch_commits := ["c1"; "c2"] |} ].

(** A charm at revision 12 whose repo-info file comes back empty once and
    with a commit afterwards. *)
Definition empty_once_store : charmstore := {|
  cs_entity_revision := fun _ => Some 12%N;
  cs_files := fun _ _ _ => FilesOk ["repo-info"];
  cs_read := fun _ _ attempt =>
    match attempt with
    | O => ReadOk ""
    | S _ => ReadOk "commit-sha-1: aa"
    end
|}.

Definition shared_tip_github : github := fun _ _ => Some shared_tip_branches.

(** Revisions 11 and 12 of a charm, built from two commits of one
    repository, whose only stable branch has the commit of revision 12. *)
Definition two_new_store : charmstore := {|
  cs_entity_revision := fun _ => Some 12%N;
  cs_files := fun _ _ _ => FilesOk ["repo-info"];
  cs_read := fun _ revision _ =>
    ReadOk (if revision =? 12
            then "commit-sha-1: c12
remote: https://github.com/canonical/example-charm
"
            else "commit-sha-1: c11
remote: https://github.com/canonical/example-charm
")
|}.

Definition one_stable_github : github := fun _ _ =>
  Some [ {| branch_name := "master"; branch_commits := ["c13"; "c12"; "c11"] |};
         {| branch_name := "stable/22.04"; branch_commits := ["c12"; "c10"] |} ].

Definition tracked_at_10 : store :=
  {[ "example" := YDict {| last_revision := Some 10; revisions := ∅ |} ]}.

(** ** The revision in the entity's [Id] *)

Module EntityId.

Definition is_hyphen (c : ascii) : bool := (nat_of_ascii c =? 45)%nat.

(** [-(\d+)$] at the head of [s]; group 1. The digits are as many as there
    are, and [$] is the end of the text or the place before a line feed
    that ends it. *)
Definition revision_at (s : list ascii) : option (list ascii) :=
  match s with
  | c :: rest =>
      if is_hyphen c then
        match Re.run Re.is_digit rest, Re.after_run Re.is_digit rest with
        | [], _ => None
        | g, [] => Some g
        | g, [c'] => if Re.is_newline c' then Some g else None
        | _, _ => None
        end
      else None
  | [] => None
  end.

Definition digit_value (c : ascii) : N := N.of_nat (nat_of_ascii c - 48).

(** CPython from 3.11 on converts a text of at most this many digits, and
    raises [ValueError] on a longer one. *)
Definition int_max_str_digits : nat := 4300.

(** [int(digits)] for a text of decimal digits, of at most
    [int_max_str_digits] digits where that limit is in force. *)
Definition int (digits : list ascii) : N :=
  foldl (fun n c => (10 * n + digit_value c)%N) 0%N digits.

(** Lines 45-46: [int(re.search(r"-(\d+)$", id).group(1))]; [None] when
    there is no match, where the script raises. This is the number that
    [cs_entity_revision] stands for. *)
Definition revision_of_id (id : string) : option N :=
  int <$> Re.search revision_at (Re.chars id).

End EntityId.

(** A number in decimal digits. *)
Definition decimal (n : N) : string := NilEmpty.string_of_uint (N.to_uint n).

(** ** More definitions for the statements *)

(** Strictly descending. *)
Definition descending (l : list Z) : Prop :=
  StronglySorted (fun a b => b < a) l.

(** The record [r] is what lines 100-111 build from a repo-info text that
    the charmstore gave for revision [k], whose file listing, at one of the
    three attempts, had a repo-info entry. *)
Definition backed (cs : charmstore) (name : string) (k : Z) (r : record)
  : Prop :=
  exists (j : nat) names (i : nat) t,
    (j < 3)%nat /\ cs_files cs name k j = FilesOk names /\
    "repo-info" ∈ names /\ cs_read cs name k i = ReadOk t /\
    repo_info_record t = Some r.

(** The stable branches of a repository, in the order of enumeration. *)
Definition stable_branches (branches : list branch) : list branch :=
  filter (fun b => Re.is_stable (branch_name b) = true) branches.

(** A branch cut down to its window. *)
Definition truncated (b : branch) : branch :=
  {| branch_name := branch_name b; branch_commits := lookback_window b |}.

(** The last revision that the scan of a charm starts from: line 170. *)
Definition stored_last_revision (v : yaml_value) : Z :=
  default 0 (last_revision (Main.as_details v)).

(** Nothing that [d] stores is missing from [d']: the last revision if
    there was one, every revision, and every field of its record. *)
Definition keeps (d d' : details) : Prop :=
  (is_Some (last_revision d) -> is_Some (last_revision d')) /\
  forall k (r : record), revisions d !! k = Some r ->
    exists r', revisions d' !! k = Some r' /\ dom r ⊆ dom r'.

(** A charm whose file listing answers at the third attempt. *)
Definition late_listing_store : charmstore := {|
  cs_entity_revision := fun _ => Some 12%N;
  cs_files := fun _ _ attempt =>
    if (attempt <? 2)%nat then FilesServerError else FilesOk ["repo-info"];
  cs_read := fun _ _ _ => ReadOk example_repo_info
|}.

(** A charm whose file listing raises an error that the script does not
    catch. *)
Definition broken_store : charmstore := {|
  cs_entity_revision := fun _ => Some 12%N;
  cs_files := fun _ _ _ => FilesOtherError;
  cs_read := fun _ _ _ => ReadOk example_repo_info
|}.

(** A charm whose repo-info file times out five times. *)
Definition slow_read_store : charmstore := {|
  cs_entity_revision := fun _ => Some 12%N;
  cs_files := fun _ _ _ => FilesOk ["repo-info"];
  cs_read := fun _ _ attempt =>
    if (attempt <? 5)%nat then ReadServerError else ReadOk example_repo_info
|}.

(** A charmstore that knows no charm. *)
Definition unknown_charm_store : charmstore := {|
  cs_entity_revision := fun _ => None;
  cs_files := fun _ _ _ => FilesEntityNotFound;
  cs_read := fun _ _ _ => ReadServerError
|}.

(** GitHub answering no request. *)
Definition github_down : github := fun _ _ => None.

Definition tracked_at_12 : store :=
  {[ "example" := YDict {| last_revision := Some 12; revisions := ∅ |} ]}.

(** What the scan of [two_new_store] gives for a charm tracked at
    revision 10. *)
Definition two_new_result : revision_hash :=
  [(12, {[ "sha" := "c12"; "user" := "canonical";
           "repo" := "example-charm" ]});
   (11, {[ "sha" := "c11"; "user" := "canonical";
           "repo" := "example-charm" ]})].

(** A charm tracked at revision 10 with a record stored for it. *)
Definition tracked_with_record : store :=
  {[ "example" :=
       YDict {| last_revision := Some 10;
                revisions :=
                  {[ 10 := {[ "sha" := "c10";
                              "release" := "stable/22.04" ]} ]} |} ]}.

(** A store with two charms, the first with a bare value. *)
Definition two_charms : store :=
  {[ "alpha" := YOther;
     "beta" := YDict {| last_revision := Some 3; revisions := ∅ |} ]}.

(** The commit dictionary of [one_stable_github]. *)
Definition one_stable_hashes : commit_dict :=
  [("c12", "stable/22.04"); ("c10", "stable/22.04")].

(** * Properties *)

(** ** The patterns on examples *)

Example search_commit_ex :
  Re.search_commit "commit-sha-1: 1a2b3c4d
remote: https://github.com/canonical/example-charm" = Some "1a2b3c4d".
Proof. reflexivity. Qed.

Example search_remote_ex :
  Re.search_remote "commit-sha-1: 1a2b3c4d
remote: https://github.com/canonical/example-charm
x" = Some ("canonical", "example-charm").
Proof. reflexivity. Qed.

Example search_remote_ex2 :
  Re.search_remote "remote: https://github.com/a/b/c/" = Some ("a/b", "c/").
Proof. vm_compute. reflexivity. Qed.

Example is_stable_ex :
  Re.is_stable "stable/20.04" = true /\ Re.is_stable "stable/" = false /\
  Re.is_stable "xstable/1" = false.
Proof. repeat split; reflexivity. Qed.

(** ** [range] *)

Lemma range_down_nil (start stop : Z) :
  start <= stop -> range_down start stop = [].
Proof.
  intros Hle. unfold range_down.
  replace (Z.to_nat (start - stop)) with 0%nat by lia. reflexivity.
Qed.

Lemma range_down_cons (start stop : Z) :
  stop < start ->
  range_down start stop = start :: range_down (start - 1) stop.
Proof.
  intros Hlt. unfold range_down.
  replace (Z.to_nat (start - stop)) with (S (Z.to_nat (start - 1 - stop)))
    by lia.
  cbn [seq map]. f_equal; [lia|].
  rewrite <- seq_shift, map_map.
  apply map_ext. intros i. lia.
Qed.

Lemma elem_of_range_down (x start stop : Z) :
  x ∈ range_down start stop <-> stop < x <= start.
Proof.
  unfold range_down. rewrite list_elem_of_In, in_map_iff. split.
  - intros (i & <- & Hi%in_seq). lia.
  - intros Hx. exists (Z.to_nat (start - x)). split; [lia|].
    apply in_seq. lia.
Qed.

Lemma range_down_app (start mid stop : Z) :
  stop <= mid <= start ->
  range_down start stop = range_down start mid ++ range_down mid stop.
Proof.
  intros [Hlo Hhi].
  remember (Z.to_nat (start - mid)) as n eqn:Hn.
  revert start Hhi Hn. induction n as [|n IH]; intros start Hhi Hn.
  - assert (start = mid) as -> by lia.
    rewrite (range_down_nil mid mid) by lia. reflexivity.
  - rewrite (range_down_cons start stop), (range_down_cons start mid) by lia.
    cbn [app]. f_equal. apply IH; lia.
Qed.

(** ** Dictionaries *)

Section DictFacts.
Context {K V : Type} `{EqDecision K}.
Implicit Types (k : K) (v : V) (d : list (K * V)).

Lemma get_set_eq k v d : PyDict.get k (PyDict.set k v d) = Some v.
Proof.
  induction d as [|[k' v'] d IH]; cbn.
  - rewrite decide_True by done. reflexivity.
  - destruct (decide (k' = k)) as [->|Hne]; cbn.
    + rewrite decide_True by done. reflexivity.
    + rewrite decide_False by done. exact IH.
Qed.

Lemma get_set_ne k k' v d :
  k <> k' -> PyDict.get k' (PyDict.set k v d) = PyDict.get k' d.
Proof.
  intros Hne. induction d as [|[k1 v1] d IH]; cbn.
  - rewrite decide_False by done. reflexivity.
  - destruct (decide (k1 = k)) as [->|Hne1]; cbn.
    + rewrite !decide_False by done. reflexivity.
    + destruct (decide (k1 = k')); [reflexivity | exact IH].
Qed.

Lemma set_set k v v' d :
  PyDict.set k v' (PyDict.set k v d) = PyDict.set k v' d.
Proof.
  induction d as [|[k1 v1] d IH]; cbn.
  - rewrite decide_True by done. reflexivity.
  - destruct (decide (k1 = k)) as [->|Hne]; cbn.
    + rewrite decide_True by done. reflexivity.
    + rewrite decide_False by done. f_equal. exact IH.
Qed.

Lemma elem_of_keys_set k k' v d :
  k' ∈ PyDict.keys (PyDict.set k v d) <-> k' = k \/ k' ∈ PyDict.keys d.
Proof.
  unfold PyDict.keys. induction d as [|[k1 v1] d IH]; cbn.
  - rewrite list_elem_of_singleton, elem_of_nil. tauto.
  - destruct (decide (k1 = k)) as [->|Hne]; cbn.
    + rewrite !elem_of_cons. tauto.
    + rewrite !elem_of_cons, IH. tauto.
Qed.

Lemma get_None_keys k d : PyDict.get k d = None <-> k ∉ PyDict.keys d.
Proof.
  unfold PyDict.keys. induction d as [|[k1 v1] d IH]; cbn.
  - split; [intros _; apply not_elem_of_nil | done].
  - rewrite not_elem_of_cons. destruct (decide (k1 = k)) as [->|Hne].
    + split; [done | intros [? _]; done].
    + rewrite IH. split; [intros ?; split; congruence | tauto].
Qed.

Lemma keys_nil_inv d : PyDict.keys d = [] -> d = [].
Proof. destruct d; [done | discriminate]. Qed.
End DictFacts.

(** ** The patterns *)

Section PatternFacts.
Implicit Types (s p g : list ascii) (f : ascii -> bool).

Lemma literal_Some p s rest : Re.literal p s = Some rest -> s = p ++ rest.
Proof.
  revert s. induction p as [|a p IH]; intros [|b s]; cbn; try congruence.
  destruct (decide (a = b)) as [->|]; [|discriminate].
  intros H%IH. congruence.
Qed.

Lemma literal_app p s : Re.literal p (p ++ s) = Some s.
Proof.
  induction p as [|a p IH]; cbn; [by destruct s|].
  by rewrite decide_True.
Qed.

Lemma run_after_run f s : s = Re.run f s ++ Re.after_run f s.
Proof.
  induction s as [|c s IH]; cbn; [reflexivity|].
  destruct (f c); cbn; congruence.
Qed.

Lemma run_Forall f s : Forall (fun c => f c = true) (Re.run f s).
Proof.
  induction s as [|c s IH]; cbn; [constructor|].
  destruct (f c) eqn:Hc; constructor; assumption.
Qed.

(** A successful search matched at some suffix of the text. *)
Lemma search_Some {A} (m : list ascii -> option A) s r :
  Re.search m s = Some r -> exists pre post, s = pre ++ post /\ m post = Some r.
Proof.
  induction s as [|c s IH]; cbn.
  - destruct (m []) eqn:Hm; [|discriminate].
    intros [= ->]. exists [], []. done.
  - destruct (m (c :: s)) eqn:Hm.
    + intros [= ->]. exists [], (c :: s). done.
    + intros (pre & post & -> & Hpost)%IH. exists (c :: pre), post. done.
Qed.

(** An unsuccessful search matched at no suffix. *)
Lemma search_None {A} (m : list ascii -> option A) pre post :
  Re.search m (pre ++ post) = None -> m post = None.
Proof.
  induction pre as [|c pre IH]; cbn.
  - destruct post; cbn; destruct (m _); done.
  - destruct (m (c :: pre ++ post)); [discriminate | exact IH].
Qed.

Lemma commit_at_Some s g :
  Re.commit_at s = Some g ->
  g <> [] /\ Forall (fun c => Re.is_hex c = true) g /\
  exists post, s = Re.chars "commit-sha-1: " ++ g ++ post.
Proof.
  unfold Re.commit_at.
  destruct (Re.literal _ s) as [rest|] eqn:Hlit; [|discriminate].
  apply literal_Some in Hlit.
  pose proof (run_after_run Re.is_hex rest) as Hsplit.
  pose proof (run_Forall Re.is_hex rest) as Hhex.
  destruct (Re.run Re.is_hex rest) as [|c g'] eqn:Hrun; [discriminate|].
  intros [= <-]. split; [done|]. split; [done|].
  exists (Re.after_run Re.is_hex rest). congruence.
Qed.

Lemma owner_repo_Some seen line u r :
  Re.owner_repo seen line = Some (u, r) ->
  exists u', u = seen ++ u' /\ line = u' ++ "/"%char :: r /\ u <> [] /\ r <> [].
Proof.
  revert seen. induction line as [|c rest IH]; intros seen; cbn;
    [discriminate|].
  destruct (Re.owner_repo (seen ++ [c]) rest) as [[u1 r1]|] eqn:Hrec.
  - intros [= -> ->]. apply IH in Hrec as (u' & -> & -> & Hu & Hr).
    exists (c :: u'). rewrite <- app_assoc in *. done.
  - destruct (Re.is_slash c) eqn:Hc; [|discriminate]. cbn.
    repeat case_bool_decide; try discriminate. cbn. intros [= <- <-].
    exists []. rewrite app_nil_r. repeat split; try done.
    f_equal. unfold Re.is_slash in Hc.
    apply Nat.eqb_eq in Hc. rewrite <- (ascii_nat_embedding c), Hc. reflexivity.
Qed.

Lemma search_commit_Some t sha :
  Re.search_commit t = Some sha -> names_commit t sha.
Proof.
  unfold Re.search_commit, names_commit.
  destruct (Re.search _ _) as [g|] eqn:Hs; [|discriminate].
  intros [= <-]. apply search_Some in Hs as (pre & post & Ht & Hm).
  apply commit_at_Some in Hm as (Hne & Hhex & post' & ->).
  unfold Re.text, Re.chars in *.
  rewrite list_ascii_of_string_of_list_ascii.
  split; [destruct g; [done|discriminate]|]. split; [done|].
  exists pre, post'. exact Ht.
Qed.

Lemma search_remote_Some t user repo :
  Re.search_remote t = Some (user, repo) -> names_remote t user repo.
Proof.
  unfold names_remote.
  unfold Re.search_remote.
  destruct (Re.search _ _) as [[u r]|] eqn:Hs; [|discriminate].
  cbn. intros [= <- <-]. apply search_Some in Hs as (pre & post & Ht & Hm).
  unfold Re.remote_at in Hm.
  destruct (Re.literal _ post) as [[|c s1]|] eqn:Hlit; try discriminate.
  apply literal_Some in Hlit.
  destruct (Re.any_char c); [|discriminate].
  destruct (Re.literal _ s1) as [s2|] eqn:Hlit2; [|discriminate].
  apply literal_Some in Hlit2.
  apply owner_repo_Some in Hm as (u' & Hu' & Hline & Hu & Hr).
  rewrite app_nil_l in Hu'. subst u.
  pose proof (run_after_run Re.any_char s2) as Hsplit.
  rewrite Hline in Hsplit.
  unfold Re.text, Re.chars in *.
  rewrite !list_ascii_of_string_of_list_ascii.
  split; [destruct u'; [done|discriminate]|].
  split; [destruct r; [done|discriminate]|].
  exists pre, c, (Re.after_run Re.any_char s2).
  rewrite Ht, Hlit, Hlit2. rewrite Hsplit at 1.
  rewrite <- app_assoc. reflexivity.
Qed.
(** A greedy run stops where the class does. *)
Lemma after_run_stops f s : stops f (Re.after_run f s).
Proof.
  induction s as [|c s IH]; cbn; [done|].
  destruct (f c) eqn:Hc; [exact IH | exact Hc].
Qed.

Lemma run_stops f body rest :
  Forall (fun c => f c = true) body -> stops f rest ->
  Re.run f (body ++ rest) = body /\ Re.after_run f (body ++ rest) = rest.
Proof.
  intros Hbody Hrest. induction Hbody as [|c body Hc _ [IH1 IH2]]; cbn.
  - destruct rest as [|x rest]; [done|]. cbn in Hrest |- *. by rewrite Hrest.
  - by rewrite Hc, IH1, IH2.
Qed.

(** [search] finds the leftmost match. *)
Lemma search_Some_iff {A} (m : list ascii -> option A) s x :
  Re.search m s = Some x <->
  exists pre post,
    s = pre ++ post /\ m post = Some x /\
    forall a b, pre = a ++ b -> b <> [] -> m (b ++ post) = None.
Proof.
  split.
  - induction s as [|c s IH]; cbn.
    + destruct (m []) eqn:Hm; [|discriminate]. intros [= ->].
      exists [], []. split; [done|]. split; [done|].
      intros a b Hab Hb. by destruct a, b.
    + destruct (m (c :: s)) eqn:Hm.
      * intros [= ->]. exists [], (c :: s). split; [done|]. split; [done|].
        intros a b Hab Hb. by destruct a, b.
      * intros (pre & post & -> & Hpost & Hfirst)%IH.
        exists (c :: pre), post. split; [done|]. split; [done|].
        intros a b Hab Hb. destruct a as [|c' a]; cbn in Hab.
        -- subst b. exact Hm.
        -- injection Hab as -> ->. by apply (Hfirst a b).
  - intros (pre & post & -> & Hpost & Hfirst).
    induction pre as [|c pre IH]; cbn.
    + destruct post; cbn; by rewrite Hpost.
    + pose proof (Hfirst [] (c :: pre) eq_refl ltac:(done)) as Hhere.
      rewrite <- app_comm_cons in Hhere. rewrite Hhere.
      apply IH. intros a b -> Hb. by apply (Hfirst (c :: a) b).
Qed.

Lemma search_None_iff {A} (m : list ascii -> option A) s :
  Re.search m s = None <-> forall a b, s = a ++ b -> m b = None.
Proof.
  split.
  - intros Hs a b ->. by apply (search_None m a b).
  - intros Hall. induction s as [|c s IH]; cbn.
    + by rewrite (Hall [] []).
    + rewrite (Hall [] (c :: s)) by done. apply IH.
      intros a b ->. by apply (Hall (c :: a) b).
Qed.

Lemma commit_at_iff s g : Re.commit_at s = Some g <-> commit_here s g.
Proof.
  unfold Re.commit_at, commit_here. split.
  - destruct (Re.literal _ s) as [rest|] eqn:Hlit; [|discriminate].
    apply literal_Some in Hlit.
    pose proof (run_after_run Re.is_hex rest) as Hsplit.
    pose proof (run_Forall Re.is_hex rest) as Hhex.
    pose proof (after_run_stops Re.is_hex rest) as Hstop.
    destruct (Re.run Re.is_hex rest) as [|c g'] eqn:Hrun; [discriminate|].
    intros [= <-]. split; [done|]. split; [done|].
    exists (Re.after_run Re.is_hex rest). split; [done|].
    unfold commit_label. congruence.
  - intros (Hne & Hhex & rest & Hstop & ->).
    unfold commit_label. rewrite literal_app.
    destruct (run_stops Re.is_hex g rest Hhex Hstop) as [-> _].
    by destruct g.
Qed.

Lemma commit_at_None_iff s : Re.commit_at s = None <-> ~ commit_starts s.
Proof.
  split.
  - intros Hnone (c & rest & Hc & ->). unfold Re.commit_at in Hnone.
    unfold commit_label in Hnone. rewrite literal_app in Hnone. cbn in Hnone.
    by rewrite Hc in Hnone.
  - intros Hno. destruct (Re.commit_at s) as [g|] eqn:Hat; [|done].
    exfalso. apply Hno. apply commit_at_iff in Hat
      as (Hne & Hhex & rest & _ & ->).
    destruct g as [|c g]; [done|]. apply Forall_cons in Hhex as [Hc _].
    by exists c, (g ++ rest).
Qed.

(** The two groups are cut at the last slash of the line that has a
    character after it. *)
Lemma owner_repo_None seen line :
  Re.owner_repo seen line = None ->
  forall l1 l2, line = l1 ++ "/"%char :: l2 -> seen ++ l1 = [] \/ l2 = [].
Proof.
  revert seen. induction line as [|c rest IH]; intros seen; cbn.
  - intros _ l1 l2 Hl. by destruct l1.
  - destruct (Re.owner_repo (seen ++ [c]) rest) eqn:Hrec; [discriminate|].
    intros Hhere l1 l2 Hl. destruct l1 as [|c1 l1]; cbn in Hl.
    + injection Hl as -> ->. rewrite app_nil_r.
      change (Re.is_slash "/") with true in Hhere. cbn in Hhere.
      repeat case_bool_decide; try discriminate; auto.
    + injection Hl as -> ->.
      destruct (IH _ Hrec l1 l2 eq_refl) as [Hnil|?]; [|by right].
      by destruct seen.
Qed.

Lemma owner_repo_iff seen line u r :
  Re.owner_repo seen line = Some (u, r) <->
  exists u', u = seen ++ u' /\ line = u' ++ "/"%char :: r /\
             u <> [] /\ r <> [] /\
             forall r1 r2, r = r1 ++ "/"%char :: r2 -> r2 = [].
Proof.
  split.
  - revert seen. induction line as [|c rest IH]; intros seen; cbn;
      [discriminate|].
    destruct (Re.owner_repo (seen ++ [c]) rest) as [[u1 r1]|] eqn:Hrec.
    + intros [= -> ->]. apply IH in Hrec as (u' & -> & -> & Hu & Hr & Hmax).
      exists (c :: u'). rewrite <- app_assoc in *. done.
    + destruct (Re.is_slash c) eqn:Hc; [|discriminate]. cbn.
      repeat case_bool_decide; try discriminate. cbn. intros [= <- <-].
      exists []. rewrite app_nil_r. repeat split; try done.
      * f_equal. unfold Re.is_slash in Hc.
        apply Nat.eqb_eq in Hc. rewrite <- (ascii_nat_embedding c), Hc.
        reflexivity.
      * intros r1 r2 Hr.
        destruct (owner_repo_None _ _ Hrec r1 r2 Hr) as [Hnil|?]; [|done].
        by destruct seen.
  - intros (u' & -> & -> & Hu & Hr & Hmax). revert seen Hu.
    induction u' as [|c u' IH]; intros seen Hu; cbn.
    + destruct (Re.owner_repo (seen ++ ["/"%char]) r) as [[u2 r2]|] eqn:Hrec.
      * apply owner_repo_Some in Hrec as (u2' & _ & -> & _ & Hr2).
        by specialize (Hmax _ _ eq_refl).
      * change (Re.is_slash "/") with true. rewrite app_nil_r in *. cbn.
        by rewrite !bool_decide_eq_false_2.
    + rewrite (IH (seen ++ [c])).
      * by rewrite <- app_assoc.
      * by destruct seen.
Qed.

Lemma remote_at_iff s u r : Re.remote_at s = Some (u, r) <-> remote_here s u r.
Proof.
  unfold Re.remote_at, remote_here. split.
  - destruct (Re.literal _ s) as [[|c s1]|] eqn:Hlit; try discriminate.
    apply literal_Some in Hlit.
    destruct (Re.any_char c) eqn:Hc; [|discriminate].
    destruct (Re.literal _ s1) as [s2|] eqn:Hlit2; [|discriminate].
    apply literal_Some in Hlit2.
    intros (u' & Hu' & Hline & Hu & Hr & Hmax)%owner_repo_iff.
    rewrite app_nil_l in Hu'. subst u'.
    pose proof (run_after_run Re.any_char s2) as Hsplit.
    pose proof (run_Forall Re.any_char s2) as Hall.
    pose proof (after_run_stops Re.any_char s2) as Hstop.
    rewrite Hline in Hsplit, Hall.
    apply Forall_app in Hall as [Hallu Hallr].
    apply Forall_cons in Hallr as [_ Hallr].
    repeat split; try done.
    exists c, (Re.after_run Re.any_char s2). split; [done|]. split; [done|].
    unfold remote_label. rewrite Hlit, Hlit2. rewrite Hsplit at 1.
    by rewrite <- !app_assoc.
  - intros (Hu & Hr & Hallu & Hallr & Hmax & c & rest & Hc & Hstop & ->).
    unfold remote_label. rewrite literal_app, Hc, literal_app.
    assert (Hline : Forall (fun c => Re.any_char c = true)
                      (u ++ "/"%char :: r)).
    { apply Forall_app. split; [done|]. by constructor. }
    replace (u ++ "/"%char :: r ++ rest) with ((u ++ "/"%char :: r) ++ rest)
      by (by rewrite <- app_assoc).
    destruct (run_stops Re.any_char _ rest Hline Hstop) as [-> _].
    apply owner_repo_iff. by exists u.
Qed.

Lemma remote_at_None_iff s : Re.remote_at s = None <-> ~ remote_starts s.
Proof.
  split.
  - intros Hnone (c & u & y & rest & Hc & Hu & Hallu & Hy & ->).
    unfold Re.remote_at, remote_label in Hnone.
    rewrite literal_app, Hc, literal_app in Hnone.
    assert (Hrun : exists line',
               Re.run Re.any_char (u ++ "/"%char :: y :: rest)
               = u ++ "/"%char :: y :: line').
    { clear -Hallu Hy. induction Hallu as [|x u Hx _ [line' IH]]; cbn.
      - rewrite Hy. by eexists.
      - rewrite Hx, IH. by eexists. }
    destruct Hrun as [line' Hrun]. rewrite Hrun in Hnone.
    destruct (owner_repo_None _ _ Hnone u (y :: line') eq_refl); done.
  - intros Hno. destruct (Re.remote_at s) as [[u r]|] eqn:Hat; [|done].
    exfalso. apply Hno. apply remote_at_iff in Hat
      as (Hu & Hr & Hallu & Hallr & _ & c & rest & Hc & _ & ->).
    destruct r as [|y r]; [done|]. apply Forall_cons in Hallr as [Hy _].
    by exists c, u, y, (r ++ rest).
Qed.

Lemma search_commit_iff (t sha : string) :
  Re.search_commit t = Some sha <-> first_commit (Re.chars t) (Re.chars sha).
Proof.
  unfold Re.search_commit, first_commit. split.
  - destruct (Re.search _ _) as [g|] eqn:Hs; [|discriminate].
    intros [= <-]. unfold Re.text, Re.chars in *.
    rewrite list_ascii_of_string_of_list_ascii.
    apply search_Some_iff in Hs as (pre & post & Ht & Hm & Hfirst).
    exists pre, post. split; [done|]. split; [by apply commit_at_iff|].
    intros a b Hab Hb. apply commit_at_None_iff. by eapply Hfirst.
  - intros (pre & post & Ht & Hm & Hfirst).
    assert (Hs : Re.search Re.commit_at (Re.chars t) = Some (Re.chars sha)).
    { apply search_Some_iff. exists pre, post. split; [done|].
      split; [by apply commit_at_iff|].
      intros a b Hab Hb. apply commit_at_None_iff. by eapply Hfirst. }
    rewrite Hs. cbn. unfold Re.text, Re.chars.
    by rewrite string_of_list_ascii_of_string.
Qed.

Lemma search_commit_None_iff (t : string) :
  Re.search_commit t = None <-> no_commit (Re.chars t).
Proof.
  unfold Re.search_commit, no_commit. rewrite fmap_None, search_None_iff.
  split; intros Hall a b Hab; apply commit_at_None_iff; by eapply Hall.
Qed.

Lemma search_remote_iff (t user repo : string) :
  Re.search_remote t = Some (user, repo) <->
  first_remote (Re.chars t) (Re.chars user) (Re.chars repo).
Proof.
  unfold Re.search_remote, first_remote. split.
  - destruct (Re.search _ _) as [[u r]|] eqn:Hs; [|discriminate].
    cbn. intros [= <- <-]. unfold Re.text, Re.chars in *.
    rewrite !list_ascii_of_string_of_list_ascii.
    apply search_Some_iff in Hs as (pre & post & Ht & Hm & Hfirst).
    exists pre, post. split; [done|]. split; [by apply remote_at_iff|].
    intros a b Hab Hb. apply remote_at_None_iff. by eapply Hfirst.
  - intros (pre & post & Ht & Hm & Hfirst).
    assert (Hs : Re.search Re.remote_at (Re.chars t)
                 = Some (Re.chars user, Re.chars repo)).
    { apply search_Some_iff. exists pre, post. split; [done|].
      split; [by apply remote_at_iff|].
      intros a b Hab Hb. apply remote_at_None_iff. by eapply Hfirst. }
    rewrite Hs. cbn. unfold Re.text, Re.chars.
    by rewrite !string_of_list_ascii_of_string.
Qed.

Lemma search_remote_None_iff (t : string) :
  Re.search_remote t = None <-> no_remote (Re.chars t).
Proof.
  unfold Re.search_remote, no_remote. rewrite fmap_None, search_None_iff.
  split; intros Hall a b Hab; apply remote_at_None_iff; by eapply Hall.
Qed.
End PatternFacts.

(** ** The scanner *)

Lemma repo_info_record_scanned t r : repo_info_record t = Some r -> scanned r.
Proof.
  unfold repo_info_record, scanned.
  destruct (Re.search_commit t) as [sha|]; [|discriminate].
  destruct (Re.search_remote t) as [[user repo]|]; intros [= <-].
  - rewrite !lookup_insert_ne by done.
    rewrite lookup_singleton_eq, !lookup_insert_eq.
    split; [eauto|]. split; eauto.
  - rewrite lookup_singleton_eq, !lookup_singleton_ne by done.
    split; [eauto|]. split; intros [? [=]].
Qed.

Section ScannerFacts.
Variable cs : charmstore.
Variable name : string.
Implicit Types (h : revision_hash) (fuel budget attempt : nat).

Lemma record_repo_info_eq revision t h :
  CharmInfo.record_repo_info revision t h =
  match repo_info_record t with
  | Some r => PyDict.set revision r h
  | None => h
  end.
Proof.
  unfold CharmInfo.record_repo_info, repo_info_record.
  destruct (Re.search_commit t) as [sha|]; [|reflexivity].
  destruct (Re.search_remote t) as [[user repo]|]; [|reflexivity].
  rewrite !get_set_eq, !set_set. reflexivity.
Qed.

Lemma record_repo_info_empty revision h :
  CharmInfo.record_repo_info revision "" h = h.
Proof. reflexivity. Qed.

Lemma record_repo_info_step revision t h :
  step_of revision h (CharmInfo.record_repo_info revision t h).
Proof.
  rewrite record_repo_info_eq.
  destruct (repo_info_record t) as [r|] eqn:Hr; [|by left].
  right. exists r. split; [|done]. by eapply repo_info_record_scanned.
Qed.

Lemma repo_info_loop_step fuel revision attempt h h' :
  CharmInfo.repo_info_loop cs name fuel revision attempt h = Ok h' ->
  step_of revision h h'.
Proof.
  revert attempt. induction fuel as [|fuel IH]; intros attempt; cbn;
    [discriminate|].
  destruct (cs_read cs name revision attempt) as [t| |]; try discriminate.
  - case_bool_decide as Ht.
    + subst t. rewrite record_repo_info_empty. apply IH.
    + intros [= <-]. apply record_repo_info_step.
  - apply IH.
Qed.

Lemma files_loop_step budget fuel revision attempt retry h h' :
  CharmInfo.files_loop cs name budget fuel revision attempt retry h = Ok h' ->
  step_of revision h h'.
Proof.
  revert attempt retry. induction budget as [|budget IH];
    intros attempt retry; cbn.
  - destruct (retry >? 0); [discriminate|]. intros [= <-]. by left.
  - destruct (retry >? 0); [|intros [= <-]; by left].
    destruct (cs_files cs name revision attempt) as [names| | | |];
      try discriminate; try apply IH.
    case_bool_decide; [apply repo_info_loop_step|].
    intros [= <-]. by left.
Qed.

Lemma scan_revision_step fuel revision h h' :
  CharmInfo.scan_revision cs name fuel revision h = Ok h' ->
  step_of revision h h'.
Proof. apply files_loop_step. Qed.

(** The three iterations that the model grants the listing loop are all
    that a retry count of at most 3 can use. *)
Lemma files_loop_budget budget budget' fuel revision attempt retry h :
  retry <= Z.of_nat budget -> retry <= Z.of_nat budget' ->
  CharmInfo.files_loop cs name budget fuel revision attempt retry h =
  CharmInfo.files_loop cs name budget' fuel revision attempt retry h.
Proof.
  revert budget' attempt retry.
  induction budget as [|budget IH]; intros [|budget'] attempt retry Hb Hb';
    cbn; destruct (retry >? 0) eqn:Hpos; try reflexivity; try lia.
  destruct (cs_files cs name revision attempt); try reflexivity;
    apply IH; lia.
Qed.

Lemma scan_revisions_app fuel l1 l2 h :
  CharmInfo.scan_revisions cs name fuel (l1 ++ l2) h =
  (h1 ← CharmInfo.scan_revisions cs name fuel l1 h;
   CharmInfo.scan_revisions cs name fuel l2 h1).
Proof.
  revert h. induction l1 as [|revision l1 IH]; intros h; cbn; [reflexivity|].
  destruct (CharmInfo.scan_revision cs name fuel revision h) as [h'|e];
    cbn; [apply IH | reflexivity].
Qed.

(** Keys are never removed from the dictionary, and the only keys added
    are revisions that were visited. *)
Lemma scan_revisions_keys fuel l h h' :
  CharmInfo.scan_revisions cs name fuel l h = Ok h' ->
  forall k, (k ∈ PyDict.keys h -> k ∈ PyDict.keys h') /\
            (k ∈ PyDict.keys h' -> k ∈ PyDict.keys h \/ k ∈ l).
Proof.
  revert h. induction l as [|revision l IH]; intros h; cbn.
  - intros [= <-] k. rewrite elem_of_nil. tauto.
  - destruct (CharmInfo.scan_revision cs name fuel revision h) as [h1|e]
      eqn:Hstep; cbn; [|discriminate].
    intros Hrest k. specialize (IH _ Hrest k).
    rewrite elem_of_cons.
    apply scan_revision_step in Hstep as [->|(r & _ & ->)]; [tauto|].
    rewrite elem_of_keys_set in IH. tauto.
Qed.

Lemma scan_revisions_scanned fuel l h h' :
  CharmInfo.scan_revisions cs name fuel l h = Ok h' ->
  Forall (fun p => scanned p.2) h -> Forall (fun p => scanned p.2) h'.
Proof.
  revert h. induction l as [|revision l IH]; intros h; cbn.
  - by intros [= <-].
  - destruct (CharmInfo.scan_revision cs name fuel revision h) as [h1|e]
      eqn:Hstep; cbn; [|discriminate].
    intros Hrest Hh. apply (IH _ Hrest).
    apply scan_revision_step in Hstep as [->|(r & Hr & ->)]; [done|].
    clear -Hh Hr. induction Hh as [|[k v] h Hv Hh IH]; cbn.
    + by constructor.
    + destruct (decide (k = revision)); constructor; done.
Qed.
End ScannerFacts.

(** ** The commit window *)

Section WindowFacts.
Implicit Types (commits : commit_dict) (shas : list string) (name sha : string).

Lemma commits_loop_take num name shas commits :
  (1 <= num <= STABLE_COMMIT_LOOKBACK)%nat ->
  CharmGit.commits_loop num name shas commits =
  set_all name (take (S STABLE_COMMIT_LOOKBACK - num) shas) commits.
Proof.
  unfold STABLE_COMMIT_LOOKBACK.
  revert num commits. induction shas as [|sha shas IH]; intros num commits Hn.
  - rewrite take_nil. reflexivity.
  - cbn [CharmGit.commits_loop]. unfold STABLE_COMMIT_LOOKBACK.
    replace (21 - num)%nat with (S (20 - num)) by lia. cbn [take].
    destruct (num =? 20)%nat eqn:Hnum.
    + apply Nat.eqb_eq in Hnum. subst num. reflexivity.
    + apply Nat.eqb_neq in Hnum. rewrite IH by lia.
      replace (21 - S num)%nat with (20 - num)%nat by lia. reflexivity.
Qed.

Lemma get_set_all sha name shas commits :
  PyDict.get sha (set_all name shas commits) =
  if decide (sha ∈ shas) then Some name else PyDict.get sha commits.
Proof.
  unfold set_all. revert commits.
  induction shas as [|s shas IH]; intros commits; cbn.
  - rewrite decide_False by apply not_elem_of_nil. reflexivity.
  - rewrite IH. destruct (decide (sha ∈ shas)) as [Hin|Hnin].
    + rewrite decide_True by (by right). reflexivity.
    + destruct (decide (s = sha)) as [->|Hne].
      * rewrite decide_True by (by left). apply get_set_eq.
      * rewrite decide_False by (rewrite elem_of_cons; intros [?|?]; done).
        by apply get_set_ne.
Qed.

Lemma branches_loop_app bs1 bs2 commits :
  CharmGit.branches_loop (bs1 ++ bs2) commits =
  CharmGit.branches_loop bs2 (CharmGit.branches_loop bs1 commits).
Proof.
  revert commits. induction bs1 as [|b bs1 IH]; intros commits; cbn;
    [reflexivity|].
  destruct (Re.is_stable (branch_name b)); apply IH.
Qed.

Lemma branches_loop_cons_stable b bs commits :
  Re.is_stable (branch_name b) = true ->
  CharmGit.branches_loop (b :: bs) commits =
  CharmGit.branches_loop bs
    (set_all (branch_name b) (lookback_window b) commits).
Proof.
  intros Hb. cbn. rewrite Hb, commits_loop_take
    by (unfold STABLE_COMMIT_LOOKBACK; lia).
  reflexivity.
Qed.

(** Branches that are not stable, or do not have the commit in their
    window, leave its entry alone. *)
Lemma get_branches_loop_other sha bs commits :
  (forall b, b ∈ bs -> Re.is_stable (branch_name b) = true ->
             sha ∉ lookback_window b) ->
  PyDict.get sha (CharmGit.branches_loop bs commits) = PyDict.get sha commits.
Proof.
  revert commits. induction bs as [|b bs IH]; intros commits Hbs;
    [reflexivity|].
  destruct (Re.is_stable (branch_name b)) eqn:Hb.
  - rewrite branches_loop_cons_stable by done.
    rewrite IH by (intros b' Hb'; apply Hbs; by right).
    rewrite get_set_all, decide_False; [done|].
    apply Hbs; [by left | done].
  - cbn. rewrite Hb. apply IH. intros b' Hb'. apply Hbs. by right.
Qed.
End WindowFacts.

(** ** The join *)

Section JoinFacts.
Variable gh : github.
Implicit Types (hashes : commit_dict) (h : revision_hash) (d : details).

(** The release of a record with a commit: the branch stored under that
    commit, which is the first and only entry with that key. *)
Lemma release_loop_sha hashes (revision_data : record) sha :
  revision_data !! "sha" = Some sha ->
  Main.release_loop hashes revision_data =
  Ok match PyDict.get sha hashes with
     | Some b => <[ "release" := b ]> revision_data
     | None => revision_data
     end.
Proof.
  intros Hsha. induction hashes as [|[commit_sha b] hashes IH]; cbn;
    [reflexivity|].
  rewrite Hsha. destruct (decide (sha = commit_sha)) as [->|Hne].
  - rewrite decide_True by done. reflexivity.
  - rewrite decide_False by done. exact IH.
Qed.

Lemma join_loop_scanned hashes h d :
  Forall (fun p => scanned p.2) h ->
  exists d', Main.join_loop hashes h d = Ok d'.
Proof.
  intros Hh. revert d. induction Hh as [|[revision r] h [[sha Hsha] _] _ IH];
    intros d; cbn.
  - eauto.
  - cbn in Hsha. rewrite (release_loop_sha _ _ _ Hsha). cbn. apply IH.
Qed.

Lemma find_hashes_no_user h :
  Forall (fun p => p.2 !! "user" = None) h -> Main.find_hashes gh h = Ok None.
Proof.
  induction 1 as [|[revision r] h Hr _ IH]; cbn; [reflexivity|].
  cbn in Hr. rewrite Hr. exact IH.
Qed.

Lemma find_hashes_scanned h :
  Forall (fun p => scanned p.2) h -> Main.find_hashes gh h <> Raise KeyError.
Proof.
  induction 1 as [|[revision r] h [_ Hur] _ IH]; cbn; [discriminate|].
  cbn in Hur. destruct (r !! "user") as [user|]; [|exact IH].
  destruct (proj1 Hur) as [repo ->]; [eauto|].
  unfold CharmGit.stable_sha_dict. destruct (gh user repo); discriminate.
Qed.

(** [sorted(...)[-1]] is the largest key. *)
Lemma last_sorted_key_Some h r :
  Main.last_sorted_key h = Some r ->
  r ∈ PyDict.keys h /\ forall k, k ∈ PyDict.keys h -> k <= r.
Proof.
  unfold Main.last_sorted_key. intros (l' & Hl)%last_Some.
  pose proof (StronglySorted_merge_sort Z.le (PyDict.keys h)) as Hsorted.
  pose proof (merge_sort_Permutation Z.le (PyDict.keys h)) as Hperm.
  rewrite Hl in Hsorted, Hperm. split.
  - rewrite <- Hperm. set_solver.
  - intros k Hk. rewrite <- Hperm in Hk.
    apply elem_of_app in Hk as [Hk|Hk%list_elem_of_singleton]; [|lia].
    eapply (StronglySorted_app_1_elem_of Z.le); [done..|set_solver].
Qed.

Lemma last_sorted_key_is_Some h :
  h <> [] -> is_Some (Main.last_sorted_key h).
Proof.
  intros Hne. unfold Main.last_sorted_key. apply last_is_Some.
  intros Hnil. apply Hne, keys_nil_inv, Permutation_nil_r.
  rewrite <- Hnil. symmetry. apply merge_sort_Permutation.
Qed.
End JoinFacts.

(** ** The claims on the scanner *)

(** C7: when the highest published revision of a charm is 0, the walk takes
    the last checked revision to be -1 whatever was stored, so revision 0 is
    among the candidates, and the result of the walk is what the attempt on
    revision 0 gives. *)
Theorem first_release_is_scanned cs name fuel (last_checked_revision : Z) :
  cs_entity_revision cs name = Some 0%N ->
  CharmInfo.effective_last_checked 0 last_checked_revision = -1 /\
  CharmInfo.candidates 0 last_checked_revision = [0] /\
  CharmInfo.get_charmstore_revisions cs name fuel last_checked_revision =
  CharmInfo.scan_revision cs name fuel 0 [].
Proof.
  intros Hentity. split; [reflexivity|]. split; [reflexivity|].
  unfold CharmInfo.get_charmstore_revisions. rewrite Hentity.
  change (CharmInfo.candidates (Z.of_N 0) last_checked_revision) with [0].
  cbn. destruct (CharmInfo.scan_revision cs name fuel 0 []); reflexivity.
Qed.

Lemma first_release_is_scanned_witness :
  CharmInfo.effective_last_checked 0 7 = -1 /\
  CharmInfo.candidates 0 7 = [0] /\
  CharmInfo.get_charmstore_revisions new_charm_store "example" 1 7 =
  CharmInfo.scan_revision new_charm_store "example" 1 0 [].
Proof.
  apply (first_release_is_scanned new_charm_store "example" 1 7).
  reflexivity.
Defined.

(** C6: from a repo-info text the scanner takes the commit, a run of
    hexadecimal digits after the label [commit-sha-1: ], and the two parts
    of a GitHub remote; the example text gives 1a2b3c4d, canonical and
    example-charm. A text without a commit leaves the dictionary as it was,
    also when it has a remote; a text with a commit and no remote is
    recorded with the commit alone; a text with both is recorded with the
    three fields.

    Which commit and which remote: for every text, either no place of the
    text starts a commit and the dictionary is left as it was, or the
    commit recorded is that of the leftmost place where the label is
    followed by a hexadecimal digit, on whatever line, with all the digits
    that follow; it comes alone when no place of the text starts a remote,
    and otherwise with the owner and the name of the leftmost remote, the
    name being what follows the last slash of that line that has a
    character after it. The two searches find a match exactly when the
    text has one, as a commit on the second line shows. *)
Theorem provenance_parsing :
  (Re.search_commit example_repo_info = Some "1a2b3c4d" /\
   Re.search_remote example_repo_info = Some ("canonical", "example-charm")) /\
  (forall (revision : Z) (repo_info : string) (h : revision_hash),
    match Re.search_commit repo_info, Re.search_remote repo_info with
    | None, _ => CharmInfo.record_repo_info revision repo_info h = h
    | Some sha, None =>
        names_commit repo_info sha /\
        CharmInfo.record_repo_info revision repo_info h =
        PyDict.set revision {[ "sha" := sha ]} h
    | Some sha, Some (user, repo) =>
        names_commit repo_info sha /\
        names_remote repo_info user repo /\
        CharmInfo.record_repo_info revision repo_info h =
        PyDict.set revision
          {[ "sha" := sha; "user" := user; "repo" := repo ]} h
    end) /\
  (forall (revision : Z) (repo_info : string) (h : revision_hash),
    (no_commit (Re.chars repo_info) /\
     CharmInfo.record_repo_info revision repo_info h = h) \/
    (exists sha,
       first_commit (Re.chars repo_info) (Re.chars sha) /\
       ((no_remote (Re.chars repo_info) /\
         CharmInfo.record_repo_info revision repo_info h =
         PyDict.set revision {[ "sha" := sha ]} h) \/
        (exists user repo,
           first_remote (Re.chars repo_info) (Re.chars user) (Re.chars repo) /\
           CharmInfo.record_repo_info revision repo_info h =
           PyDict.set revision
             {[ "sha" := sha; "user" := user; "repo" := repo ]} h)))) /\
  (forall t sha,
    Re.search_commit t = Some sha <->
    first_commit (Re.chars t) (Re.chars sha)) /\
  (forall t, Re.search_commit t = None <-> no_commit (Re.chars t)) /\
  (forall t user repo,
    Re.search_remote t = Some (user, repo) <->
    first_remote (Re.chars t) (Re.chars user) (Re.chars repo)) /\
  (forall t, Re.search_remote t = None <-> no_remote (Re.chars t)) /\
  Re.search_commit commit_on_line_2 = Some "1a2b3c4d" /\
  Re.search_commit remote_with_path = Some "00ff" /\
  Re.search_remote remote_with_path = Some ("canonical/charms", "example-charm").
Proof.
  assert (Hfields : forall revision sha user repo (h : revision_hash),
    PyDict.set revision
      (<[ "repo" := repo ]> (<[ "user" := user ]> {[ "sha" := sha ]})) h =
    PyDict.set revision
      ({[ "sha" := sha; "user" := user; "repo" := repo ]} : record) h).
  { intros revision sha user repo h.
    apply (f_equal (fun r : record => PyDict.set revision r h)).
    apply map_eq. intros k.
    destruct (decide (k = "sha")) as [->|]; [by simplify_map_eq|].
    destruct (decide (k = "user")) as [->|]; [by simplify_map_eq|].
    destruct (decide (k = "repo")) as [->|]; by simplify_map_eq. }
  split; [split; reflexivity|].
  split.
  { intros revision repo_info h. rewrite record_repo_info_eq.
    unfold repo_info_record.
    destruct (Re.search_commit repo_info) as [sha|] eqn:Hsha; [|reflexivity].
    apply search_commit_Some in Hsha.
    destruct (Re.search_remote repo_info) as [[user repo]|] eqn:Hremote;
      [|done].
    apply search_remote_Some in Hremote.
    split; [done|]. split; [done|]. apply Hfields. }
  split.
  { intros revision repo_info h. rewrite record_repo_info_eq.
    unfold repo_info_record.
    destruct (Re.search_commit repo_info) as [sha|] eqn:Hsha.
    - right. exists sha. split; [by apply search_commit_iff|].
      destruct (Re.search_remote repo_info) as [[user repo]|] eqn:Hremote.
      + right. exists user, repo.
        split; [by apply search_remote_iff | apply Hfields].
      + left. split; [by apply search_remote_None_iff | reflexivity].
    - left. split; [by apply search_commit_None_iff | reflexivity]. }
  split; [exact search_commit_iff|].
  split; [exact search_commit_None_iff|].
  split; [exact search_remote_iff|].
  split; [exact search_remote_None_iff|].
  repeat split; vm_compute; reflexivity.
Qed.

(** C4: when the file listing of revision V times out on each of the three
    attempts, the attempt on V leaves the dictionary as it was, the walk
    goes on with the revisions below V as if it had started there, and V is
    not a key of the result. *)
Theorem retry_exhaustion cs name fuel (V : Z) :
  (forall attempt, (attempt < 3)%nat ->
     cs_files cs name V attempt = FilesServerError) ->
  (forall h, CharmInfo.scan_revision cs name fuel V h = Ok h) /\
  (forall start stop, stop < V <= start ->
     CharmInfo.scan_revisions cs name fuel (range_down start stop) [] =
     (h ← CharmInfo.scan_revisions cs name fuel (range_down start V) [];
      CharmInfo.scan_revisions cs name fuel (range_down (V - 1) stop) h)) /\
  (forall last_checked_revision h,
     CharmInfo.get_charmstore_revisions cs name fuel last_checked_revision
       = Ok h ->
     V ∉ PyDict.keys h).
Proof.
  intros Hfail.
  assert (Hstep : forall h, CharmInfo.scan_revision cs name fuel V h = Ok h).
  { intros h. unfold CharmInfo.scan_revision. cbn.
    rewrite !Hfail by lia. reflexivity. }
  assert (Hwalk : forall start stop, stop < V <= start ->
     CharmInfo.scan_revisions cs name fuel (range_down start stop) [] =
     (h ← CharmInfo.scan_revisions cs name fuel (range_down start V) [];
      CharmInfo.scan_revisions cs name fuel (range_down (V - 1) stop) h)).
  { intros start stop Hrange.
    rewrite (range_down_app start V stop) by lia.
    rewrite (range_down_cons V stop) by lia.
    rewrite scan_revisions_app.
    destruct (CharmInfo.scan_revisions cs name fuel (range_down start V) [])
      as [h|e]; cbn; [|reflexivity].
    rewrite Hstep. reflexivity. }
  split; [exact Hstep|]. split; [exact Hwalk|].
  intros R h. unfold CharmInfo.get_charmstore_revisions.
  destruct (cs_entity_revision cs name) as [n|]; [|discriminate].
  unfold CharmInfo.candidates.
  set (stop := CharmInfo.effective_last_checked (Z.of_N n) R).
  intros Hscan HV.
  assert (HVrange : stop < V <= Z.of_N n).
  { apply (scan_revisions_keys _ _ _ _ _ _ Hscan) in HV as [HV|HV].
    - by apply elem_of_nil in HV.
    - by apply elem_of_range_down in HV. }
  rewrite Hwalk in Hscan by done.
  destruct (CharmInfo.scan_revisions cs name fuel
              (range_down (Z.of_N n) V) []) as [h1|e] eqn:Hupper;
    cbn in Hscan; [|discriminate].
  apply (scan_revisions_keys _ _ _ _ _ _ Hscan) in HV as [HV|HV].
  - apply (scan_revisions_keys _ _ _ _ _ _ Hupper) in HV as [HV|HV].
    + by apply elem_of_nil in HV.
    + apply elem_of_range_down in HV. lia.
  - apply elem_of_range_down in HV. lia.
Qed.

Lemma retry_exhaustion_witness :
  (forall h, CharmInfo.scan_revision timeout_store "example" 1 12 h = Ok h) /\
  (forall start stop, stop < 12 <= start ->
     CharmInfo.scan_revisions timeout_store "example" 1
       (range_down start stop) [] =
     (h ← CharmInfo.scan_revisions timeout_store "example" 1
            (range_down start 12) [];
      CharmInfo.scan_revisions timeout_store "example" 1
        (range_down (12 - 1) stop) h)) /\
  (forall last_checked_revision h,
     CharmInfo.get_charmstore_revisions timeout_store "example" 1
       last_checked_revision = Ok h ->
     12 ∉ PyDict.keys h).
Proof.
  apply (retry_exhaustion timeout_store "example" 1 12).
  intros attempt Hlt.
  do 3 (destruct attempt as [|attempt]; [reflexivity|]). lia.
Defined.

(** The part of the repo-info loop that is as the specification has it:
    time-outs are retried, however many there are, and the first answer
    with a text that is not empty ends the loop. *)
Lemma repo_info_loop_retries cs name fuel revision (n : nat) repo_info h :
  (forall attempt, (attempt < n)%nat ->
     cs_read cs name revision attempt = ReadServerError) ->
  cs_read cs name revision n = ReadOk repo_info ->
  repo_info <> "" ->
  (n < fuel)%nat ->
  CharmInfo.repo_info_loop cs name fuel revision 0 h =
  Ok (CharmInfo.record_repo_info revision repo_info h).
Proof.
  intros Herr Hok Hne Hfuel.
  assert (Hgen : forall k attempt, (attempt + k = n)%nat ->
            forall fuel', (k < fuel')%nat ->
            CharmInfo.repo_info_loop cs name fuel' revision attempt h =
            Ok (CharmInfo.record_repo_info revision repo_info h)).
  { induction k as [|k IH]; intros attempt Hk [|fuel'] Hf; try lia; cbn.
    - replace attempt with n by lia. rewrite Hok.
      rewrite bool_decide_eq_false_2 by done. reflexivity.
    - rewrite Herr by lia. apply IH; lia. }
  apply (Hgen n 0%nat); lia.
Qed.

(** C9: the repo-info loop is meant to end with the first fetch that
    succeeds. A fetch that succeeds with an empty text does not end it: the
    loop fetches again, and against a store that keeps answering with the
    empty text it never ends; when the second answer has a commit, that
    commit is recorded. *)
Theorem empty_repo_info_is_fetched_again :
  (forall fuel attempt h,
     CharmInfo.repo_info_loop empty_repo_info_store "example" fuel 12 attempt h
       = Raise Unfinished) /\
  CharmInfo.repo_info_loop empty_once_store "example" 1 12 0 []
    = Raise Unfinished /\
  CharmInfo.repo_info_loop empty_once_store "example" 2 12 0 []
    = Ok [(12, {[ "sha" := "aa" ]})].
Proof.
  split; [|split; reflexivity].
  induction fuel as [|fuel IH]; intros attempt h; cbn; [reflexivity|].
  rewrite record_repo_info_empty. apply IH.
Qed.

(** C10: every record of the dictionary that the scanner returns has a
    commit, and a user exactly when it has a repository; so neither the
    search for the first user nor the join, which read ["repo"] and ["sha"]
    without a test, raise [KeyError] on it. *)
Theorem scanned_records_have_sha cs name fuel (last_checked_revision : Z) h :
  CharmInfo.get_charmstore_revisions cs name fuel last_checked_revision
    = Ok h ->
  Forall (fun p => scanned p.2) h /\
  (forall gh, Main.find_hashes gh h <> Raise KeyError) /\
  (forall hashes d, exists d', Main.join_loop hashes h d = Ok d').
Proof.
  unfold CharmInfo.get_charmstore_revisions.
  destruct (cs_entity_revision cs name) as [n|]; [|discriminate].
  intros Hscan.
  assert (Hh : Forall (fun p => scanned p.2) h).
  { eapply scan_revisions_scanned; [exact Hscan | constructor]. }
  split; [exact Hh|]. split.
  - intros gh. by apply find_hashes_scanned.
  - intros hashes d. by apply join_loop_scanned.
Qed.

Lemma scanned_records_have_sha_witness :
  let h := [(0, {[ "sha" := "1a2b3c4d"; "user" := "canonical";
                   "repo" := "example-charm" ]})] in
  Forall (fun p => scanned p.2) h /\
  (forall gh, Main.find_hashes gh h <> Raise KeyError) /\
  (forall hashes d, exists d', Main.join_loop hashes h d = Ok d').
Proof.
  apply (scanned_records_have_sha new_charm_store "example" 1 0).
  vm_compute. reflexivity.
Defined.

(** ** The claims on the commit window *)

(** C2, as stated, fails: the commit c1 is in the window of both stable
    branches, stable/20.04 is enumerated first, and the dictionary has c1
    under stable/21.04. *)
Lemma shared_commit_goes_to_later_branch :
  Forall (fun b => Re.is_stable (branch_name b) = true /\
                   "c1" ∈ lookback_window b) shared_tip_branches /\
  (branch_name <$> head shared_tip_branches) = Some "stable/20.04" /\
  CharmGit.stable_sha_dict shared_tip_github "canonical" "example-charm" =
  Ok [("c1", "stable/21.04"); ("c0", "stable/20.04"); ("c2", "stable/21.04")].
Proof.
  split; [|split; reflexivity].
  unfold shared_tip_branches, lookback_window.
  repeat (constructor; [split; [reflexivity | cbn; left]|]). constructor.
Qed.

(** C2, amended: a commit that is in the window of several stable branches
    is associated with the one that is enumerated last among them. *)
Theorem last_stable_branch_wins (gh : github) user repo pre b post sha :
  gh user repo = Some (pre ++ b :: post) ->
  Re.is_stable (branch_name b) = true ->
  sha ∈ lookback_window b ->
  (forall b', b' ∈ post -> Re.is_stable (branch_name b') = true ->
              sha ∉ lookback_window b') ->
  exists commits,
    CharmGit.stable_sha_dict gh user repo = Ok commits /\
    PyDict.get sha commits = Some (branch_name b).
Proof.
  intros Hgh Hb Hin Hpost. unfold CharmGit.stable_sha_dict. rewrite Hgh.
  eexists. split; [reflexivity|].
  unfold CharmGit.stable_commits.
  rewrite branches_loop_app, branches_loop_cons_stable by done.
  rewrite get_branches_loop_other by done.
  rewrite get_set_all, decide_True by done. reflexivity.
Qed.

Lemma last_stable_branch_wins_witness :
  exists commits,
    CharmGit.stable_sha_dict shared_tip_github "canonical" "example-charm"
      = Ok commits /\
    PyDict.get "c1" commits = Some "stable/21.04".
Proof.
  apply (last_stable_branch_wins shared_tip_github "canonical" "example-charm"
           [ {| branch_name := "stable/20.04"; branch_commits := ["c1"; "c0"] |} ]
           {| branch_name := "stable/21.04"; branch_commits := ["c1"; "c2"] |}
           [] "c1").
  - reflexivity.
  - reflexivity.
  - unfold lookback_window. cbn. left.
  - intros b' Hb'. by apply elem_of_nil in Hb'.
Defined.

(** ** The claims on the join *)

(** C5: the join gives a record the release stored under its commit in the
    commit dictionary, and leaves a record whose commit is not a key as it
    is; with revisions 5 (abc) and 6 (def) and the dictionary that has abc
    under stable/20.04 and xyz under stable/21.04, the stored record of 5
    gets that release and the stored record of 6 has none. *)
Theorem join_sets_release :
  (forall (hashes : commit_dict) (revision_data : record) sha,
     revision_data !! "sha" = Some sha ->
     Main.release_loop hashes revision_data =
     Ok match PyDict.get sha hashes with
        | Some b => <[ "release" := b ]> revision_data
        | None => revision_data
        end) /\
  Main.join_loop [("abc", "stable/20.04"); ("xyz", "stable/21.04")]
    [(5, {[ "sha" := "abc" ]}); (6, {[ "sha" := "def" ]})] no_details =
  Ok {| last_revision := None;
        revisions := {[ 5 := {[ "sha" := "abc"; "release" := "stable/20.04" ]};
                        6 := {[ "sha" := "def" ]} ]} |}.
Proof.
  split; [apply release_loop_sha|].
  vm_compute. reflexivity.
Qed.

Lemma join_sets_release_witness :
  Main.release_loop [("abc", "stable/20.04"); ("xyz", "stable/21.04")]
    {[ "sha" := "abc" ]} =
  Ok (<[ "release" := "stable/20.04" ]> {[ "sha" := "abc" ]}).
Proof.
  apply (proj1 join_sets_release
           [("abc", "stable/20.04"); ("xyz", "stable/21.04")]
           {[ "sha" := "abc" ]} "abc").
  reflexivity.
Defined.

(** ** The reconciler *)

Section ReconcilerFacts.
Variable cs : charmstore.
Variable gh : github.
Variable fuel : nat.
Implicit Types (s : state) (d : details) (h : revision_hash) (cd e : store).

Let process_charm := Main.process_charm cs gh fuel.
Let scan charm (r : Z) := CharmInfo.get_charmstore_revisions cs charm fuel r.

Lemma normalized_lookup charm v cd :
  cd !! charm = Some v ->
  normalized charm v cd !! charm = Some (YDict (Main.as_details v)).
Proof.
  intros Hv. destruct v; cbn; [exact Hv | apply lookup_insert_eq].
Qed.

Lemma normalized_YDict charm d cd : normalized charm (YDict d) cd = cd.
Proof. reflexivity. Qed.

(** The loop body when the scan finds nothing. *)
Lemma process_charm_empty charm s v :
  charm_data s !! charm = Some v ->
  scan charm (default 0 (last_revision (Main.as_details v))) = Ok [] ->
  process_charm charm s =
  Ok {| charm_data := normalized charm v (charm_data s);
        yaml_file := yaml_file s |}.
Proof.
  unfold process_charm, scan, Main.process_charm. intros -> ->. cbn.
  reflexivity.
Qed.

(** The loop body when the scan finds something. *)
Lemma process_charm_found charm s v h :
  charm_data s !! charm = Some v ->
  scan charm (default 0 (last_revision (Main.as_details v))) = Ok h ->
  h <> [] ->
  process_charm charm s =
  (hashes ← Main.find_hashes gh h;
   d1 ← match hashes with
        | Some hs => Main.join_loop hs h (Main.as_details v)
        | None => Ok (Main.as_details v)
        end;
   match Main.last_sorted_key h with
   | Some r =>
       Ok (dump (<[ charm := YDict (Main.set_last_revision r d1) ]>
                   (charm_data s)))
   | None => Raise IndexError
   end).
Proof.
  unfold process_charm, scan, Main.process_charm. intros -> -> Hne. cbn.
  rewrite bool_decide_eq_false_2 by (destruct h; [done | discriminate]).
  destruct (Main.find_hashes gh h) as [hashes|]; cbn; [|reflexivity].
  destruct (match hashes with Some _ => _ | None => _ end); cbn;
    [|reflexivity].
  destruct (Main.last_sorted_key h); [|reflexivity].
  destruct v; cbn; [reflexivity|]. by rewrite insert_insert_eq.
Qed.

(** The three ways in which the loop body ends without an exception. *)
Lemma process_charm_Ok charm s s' :
  process_charm charm s = Ok s' ->
  exists v, charm_data s !! charm = Some v /\
    ((scan charm (default 0 (last_revision (Main.as_details v))) = Ok [] /\
      s' = {| charm_data := normalized charm v (charm_data s);
              yaml_file := yaml_file s |}) \/
     (exists h d1 r,
        scan charm (default 0 (last_revision (Main.as_details v))) = Ok h /\
        h <> [] /\ Main.last_sorted_key h = Some r /\
        (hashes ← Main.find_hashes gh h;
         match hashes with
         | Some hs => Main.join_loop hs h (Main.as_details v)
         | None => Ok (Main.as_details v)
         end) = Ok d1 /\
        s' = dump (<[ charm := YDict (Main.set_last_revision r d1) ]>
                     (charm_data s)))).
Proof.
  intros Hs'.
  destruct (charm_data s !! charm) as [v|] eqn:Hv;
    [|unfold process_charm, Main.process_charm in Hs'; by rewrite Hv in Hs'].
  exists v. split; [done|].
  destruct (scan charm (default 0 (last_revision (Main.as_details v))))
    as [h|x] eqn:Hscan;
    [|unfold process_charm, scan, Main.process_charm in *;
      by rewrite Hv, Hscan in Hs'].
  destruct (decide (h = [])) as [->|Hne].
  - left. split; [done|].
    rewrite (process_charm_empty _ _ _ Hv Hscan) in Hs'. congruence.
  - right. rewrite (process_charm_found _ _ _ _ Hv Hscan) in Hs' by done.
    destruct (Main.find_hashes gh h) as [hashes|] eqn:Hfh; [|done].
    change (mbind ?f (Ok ?a)) with (f a) in Hs'. cbv beta in Hs'.
    destruct (match hashes with Some _ => _ | None => _ end) as [d1|] eqn:Hd1;
      [|done].
    change (mbind ?f (Ok ?a)) with (f a) in Hs'. cbv beta in Hs'.
    destruct (Main.last_sorted_key h) as [r|] eqn:Hr; [|done].
    exists h, d1, r. rewrite Hfh. repeat split; try done. congruence.
Qed.
End ReconcilerFacts.

Section RunFacts.
Variable cs : charmstore.
Variable gh : github.
Variable fuel : nat.
Implicit Types (s : state) (d : details) (h : revision_hash) (cd e : store).

Let process_charm := Main.process_charm cs gh fuel.
Let scan charm (r : Z) := CharmInfo.get_charmstore_revisions cs charm fuel r.

(** The loop body for one charm leaves the other charms alone. *)
Lemma process_charm_other charm s s' c :
  process_charm charm s = Ok s' -> c <> charm ->
  charm_data s' !! c = charm_data s !! c.
Proof.
  intros (v & Hv & [[_ ->]|(h & d1 & r & _ & _ & _ & _ & ->)])%process_charm_Ok
    Hne; cbn.
  - destruct v; cbn; [done | by rewrite lookup_insert_ne].
  - by rewrite lookup_insert_ne.
Qed.

(** It leaves the file alone or ends with a dump. *)
Lemma process_charm_file charm s s' :
  process_charm charm s = Ok s' ->
  yaml_file s' = yaml_file s \/ s' = dump (charm_data s').
Proof.
  intros (v & Hv & [[_ ->]|(h & d1 & r & _ & _ & _ & _ & ->)])%process_charm_Ok;
    [by left | by right].
Qed.

(** It neither adds nor removes a charm. *)
Lemma process_charm_dom charm s s' :
  process_charm charm s = Ok s' ->
  dom (charm_data s') = dom (charm_data s).
Proof.
  intros (v & Hv & [[_ ->]|(h & d1 & r & _ & _ & _ & _ & ->)])%process_charm_Ok;
    cbn; apply (elem_of_dom_2 (charm_data s)) in Hv.
  - destruct v; cbn; [done|]. rewrite dom_insert_L.
    by apply subseteq_union_1_L, singleton_subseteq_l.
  - rewrite dom_insert_L.
    by apply subseteq_union_1_L, singleton_subseteq_l.
Qed.

(** Storing a record a second time changes nothing. *)
Lemma store_revision_twice revision (r : record) m d :
  Main.store_revision revision r
    (Main.set_last_revision m (Main.store_revision revision r d)) =
  Main.set_last_revision m (Main.store_revision revision r d).
Proof.
  unfold Main.store_revision, Main.set_last_revision.
  destruct (revisions d !! revision) as [stored|]; cbn;
    rewrite lookup_insert_eq; f_equal; rewrite insert_insert_eq; f_equal.
  - by rewrite (assoc_L (∪)), (idemp_L (∪)).
  - by rewrite (idemp_L (∪)).
Qed.

(** Above the largest revision that a walk recorded, the same walk
    records nothing. *)
Lemma scan_above_last charm (H R r : Z) h :
  CharmInfo.scan_revisions cs charm fuel (range_down H R) [] = Ok h ->
  Main.last_sorted_key h = Some r ->
  CharmInfo.scan_revisions cs charm fuel (range_down H r) [] = Ok [].
Proof.
  intros Hscan [Hr Hmax]%last_sorted_key_Some.
  assert (HrR : R < r <= H).
  { apply (scan_revisions_keys _ _ _ _ _ _ Hscan) in Hr as [Hr|Hr].
    - by apply elem_of_nil in Hr.
    - by apply elem_of_range_down in Hr. }
  rewrite (range_down_app H r R), scan_revisions_app in Hscan by lia.
  destruct (CharmInfo.scan_revisions cs charm fuel (range_down H r) [])
    as [h1|x] eqn:Hupper; [|discriminate].
  cbn in Hscan. f_equal. apply keys_nil_inv.
  destruct (PyDict.keys h1) as [|k ks] eqn:Hkeys; [reflexivity|].
  exfalso.
  assert (Hk : k ∈ PyDict.keys h1) by (rewrite Hkeys; by left).
  pose proof (proj1 (scan_revisions_keys _ _ _ _ _ _ Hscan k) Hk) as Hk'.
  apply Hmax in Hk'.
  apply (scan_revisions_keys _ _ _ _ _ _ Hupper) in Hk as [Hk|Hk].
  - by apply elem_of_nil in Hk.
  - apply elem_of_range_down in Hk. lia.
Qed.

(** A walk over revision 0 alone records nothing or revision 0. *)
Lemma scan_zero charm h :
  CharmInfo.scan_revisions cs charm fuel [0] [] = Ok h ->
  h = [] \/ exists r, h = [(0, r)].
Proof.
  cbn. destruct (CharmInfo.scan_revision cs charm fuel 0 []) as [h'|x]
    eqn:Hstep; [|discriminate].
  cbn. intros [= <-].
  apply scan_revision_step in Hstep as [->|(r & _ & ->)]; [by left|].
  right. by exists r.
Qed.
End RunFacts.

Section Idempotence.
Variable cs : charmstore.
Variable gh : github.
Variable fuel : nat.
Implicit Types (s : state) (d : details) (h : revision_hash) (cd e : store).

Let process_charm := Main.process_charm cs gh fuel.
Let scan charm (r : Z) := CharmInfo.get_charmstore_revisions cs charm fuel r.

Lemma candidates_nonzero (n : N) (R : Z) :
  n <> 0%N ->
  CharmInfo.candidates (Z.of_N n) R = range_down (Z.of_N n) R.
Proof.
  intros Hn. unfold CharmInfo.candidates, CharmInfo.effective_last_checked.
  destruct (Z.eqb_spec (Z.of_N n) 0); [lia | reflexivity].
Qed.

(** Once a charm has been processed, processing it again, from a store
    that has its entry as the first pass left it, changes nothing. *)
Lemma process_charm_again charm s s' e :
  process_charm charm s = Ok s' ->
  e !! charm = charm_data s' !! charm ->
  process_charm charm (dump e) = Ok (dump e).
Proof.
  intros (v & Hv & [[Hscan ->]|(h & d1 & r & Hscan & Hne & Hr & Hd1 & ->)])
    %process_charm_Ok He; cbn in He.
  - rewrite (normalized_lookup _ _ _ Hv) in He.
    unfold process_charm.
    rewrite (process_charm_empty cs gh fuel charm (dump e) _ He Hscan).
    reflexivity.
  - rewrite lookup_insert_eq in He.
    unfold scan, CharmInfo.get_charmstore_revisions in Hscan.
    destruct (cs_entity_revision cs charm) as [n|] eqn:Hn; [|discriminate].
    destruct (decide (n = 0%N)) as [->|Hn0].
    + change (CharmInfo.candidates (Z.of_N 0) ?R) with [0] in Hscan.
      destruct (scan_zero _ _ _ _ Hscan) as [->|[rd ->]]; [done|].
      assert (r = 0) as -> by (vm_compute in Hr; congruence).
      assert (Hscan' : scan charm (default 0 (last_revision
                 (Main.as_details (YDict (Main.set_last_revision 0 d1)))))
               = Ok [(0, rd)]).
      { unfold scan, CharmInfo.get_charmstore_revisions. rewrite Hn.
        exact Hscan. }
      unfold process_charm.
      rewrite (process_charm_found cs gh fuel charm (dump e) _ _ He Hscan')
        by done.
      destruct (Main.find_hashes gh [(0, rd)]) as [[hs|]|]; [| |done].
      * cbn in Hd1 |- *.
        destruct (Main.release_loop hs rd) as [rd'|]; [|done].
        cbn in Hd1 |- *. injection Hd1 as <-.
        rewrite store_revision_twice.
        change (Main.last_sorted_key [(0, rd)]) with (Some 0).
        do 2 f_equal. by apply insert_id.
      * cbn in Hd1 |- *. injection Hd1 as <-.
        change (Main.last_sorted_key [(0, rd)]) with (Some 0).
        do 2 f_equal. by apply insert_id.
    + rewrite candidates_nonzero in Hscan by done.
      pose proof (scan_above_last _ _ _ _ _ _ _ Hscan Hr) as Habove.
      assert (Hscan' : scan charm (default 0 (last_revision
                 (Main.as_details (YDict (Main.set_last_revision r d1)))))
               = Ok []).
      { unfold scan, CharmInfo.get_charmstore_revisions. rewrite Hn.
        rewrite candidates_nonzero by done. exact Habove. }
      unfold process_charm.
      rewrite (process_charm_empty cs gh fuel charm (dump e) _ He Hscan').
      reflexivity.
Qed.

Lemma run_charms_other l s s' c :
  run_charms cs gh fuel l s = Ok s' -> c ∉ l ->
  charm_data s' !! c = charm_data s !! c.
Proof.
  revert s. induction l as [|charm l IH]; intros s; cbn.
  - by intros [= <-].
  - destruct (Main.process_charm cs gh fuel charm s) as [s1|x] eqn:Hstep;
      [|discriminate].
    cbn. intros Hrest [Hne Hnin]%not_elem_of_cons.
    rewrite (IH _ Hrest Hnin). by eapply process_charm_other.
Qed.

Lemma run_charms_dom l s s' :
  run_charms cs gh fuel l s = Ok s' ->
  dom (charm_data s') = dom (charm_data s).
Proof.
  revert s. induction l as [|charm l IH]; intros s; cbn.
  - by intros [= <-].
  - destruct (Main.process_charm cs gh fuel charm s) as [s1|x] eqn:Hstep;
      [|discriminate].
    cbn. intros Hrest. rewrite (IH _ Hrest). by eapply process_charm_dom.
Qed.

(** A second pass over charms that a first pass has processed changes
    nothing. *)
Lemma run_charms_again l s s' e :
  NoDup l ->
  run_charms cs gh fuel l s = Ok s' ->
  (forall c, c ∈ l -> e !! c = charm_data s' !! c) ->
  run_charms cs gh fuel l (dump e) = Ok (dump e).
Proof.
  intros Hnd. revert s. induction Hnd as [|charm l Hnin Hnd IH]; intros s;
    cbn; [done|].
  destruct (Main.process_charm cs gh fuel charm s) as [s1|x] eqn:Hstep;
    [|discriminate].
  cbn. intros Hrest He.
  pose proof (process_charm_again charm s s1 e Hstep) as Hagain.
  unfold process_charm in Hagain. rewrite Hagain.
  - cbn. apply (IH _ Hrest). intros c Hc. apply He. by right.
  - rewrite (He charm) by (by left).
    by apply (run_charms_other _ _ _ _ Hrest).
Qed.

Lemma charms_loop_app l1 l2 s s1 :
  run_charms cs gh fuel l1 s = Ok s1 ->
  Main.charms_loop cs gh fuel (l1 ++ l2) s = Main.charms_loop cs gh fuel l2 s1.
Proof.
  revert s. induction l1 as [|charm l1 IH]; intros s; cbn.
  - by intros [= <-].
  - destruct (Main.process_charm cs gh fuel charm s) as [s'|x];
      [|discriminate].
    cbn. apply IH.
Qed.

(** The file at the end of the loop is the file at its start, or the
    dump that ended the processing of some charm, after which the file
    was not written again. *)
Lemma charms_loop_last_dump l s :
  (Main.charms_loop cs gh fuel l s).1 = yaml_file s \/
  exists l1 l2 cd,
    l = l1 ++ l2 /\
    run_charms cs gh fuel l1 s = Ok (dump cd) /\
    Main.charms_loop cs gh fuel l2 (dump cd) =
      (cd, (Main.charms_loop cs gh fuel l s).2).
Proof.
  revert s. induction l as [|charm l IH]; intros s; cbn; [by left|].
  destruct (Main.process_charm cs gh fuel charm s) as [s'|x] eqn:Hstep;
    [|by left].
  destruct (IH s') as [Hfile|(l1 & l2 & cd & -> & Hrun & Hloop)].
  - destruct (process_charm_file _ _ _ _ _ _ Hstep) as [Heq|Hdump].
    + left. congruence.
    + right. exists [charm], l, (charm_data s'). split; [done|]. split.
      * cbn. rewrite Hstep. cbn. congruence.
      * rewrite <- Hdump.
        rewrite (surjective_pairing (Main.charms_loop cs gh fuel l s')).
        rewrite Hfile, Hdump. reflexivity.
  - right. exists (charm :: l1), l2, cd. split; [done|]. split; [|done].
    cbn. rewrite Hstep. exact Hrun.
Qed.

Lemma charmlist_NoDup (cd : store) : NoDup (Main.charmlist cd).
Proof.
  unfold Main.charmlist. rewrite merge_sort_Permutation.
  apply NoDup_elements.
Qed.

(** A charm that the loop body leaves as it is keeps its entry in the
    file to the end of the loop. *)
Lemma charms_loop_keeps charm v l s :
  (forall s', charm_data s' !! charm = Some v ->
              Main.process_charm cs gh fuel charm s' = Ok s') ->
  charm_data s !! charm = Some v -> yaml_file s !! charm = Some v ->
  (Main.charms_loop cs gh fuel l s).1 !! charm = Some v.
Proof.
  intros Hsame. revert s. induction l as [|c l IH]; intros s Hcd Hfile; cbn;
    [done|].
  destruct (Main.process_charm cs gh fuel c s) as [s'|x] eqn:Hstep; [|done].
  destruct (decide (c = charm)) as [->|Hne].
  - rewrite Hsame in Hstep by done. injection Hstep as <-. by apply IH.
  - assert (Hcd' : charm_data s' !! charm = Some v).
    { rewrite <- Hcd. eapply process_charm_other; [exact Hstep | done]. }
    apply IH; [done|].
    destruct (process_charm_file _ _ _ _ _ _ Hstep) as [->| ->]; done.
Qed.
End Idempotence.

(** ** The claims on the reconciler *)

Section ReconcilerClaims.
Variable cs : charmstore.
Variable gh : github.
Variable fuel : nat.

(** C8: a second run, on the file that a first run has left and with the
    charmstore and GitHub answering as before, leaves that file as it is
    and ends as the first run did. *)
Theorem reconciler_idempotent (file : store) :
  Main.main cs gh fuel (Main.main cs gh fuel file).1 =
  Main.main cs gh fuel file.
Proof.
  unfold Main.main at 2 3.
  destruct (charms_loop_last_dump cs gh fuel (Main.charmlist file)
              (dump file))
    as [Hfile|(l1 & l2 & cd & Hl & Hrun & Hloop)].
  - cbn in Hfile. rewrite Hfile. reflexivity.
  - rewrite Hl in *. rewrite (charms_loop_app cs gh fuel _ _ _ _ Hrun) in *.
    assert (Hfst : (Main.charms_loop cs gh fuel l2 (dump cd)).1 = cd)
      by (by rewrite Hloop).
    rewrite Hfst. unfold Main.main.
    assert (Main.charmlist cd = l1 ++ l2) as ->.
    { rewrite <- Hl. unfold Main.charmlist.
      pose proof (run_charms_dom cs gh fuel _ _ _ Hrun) as Hdom. cbn in Hdom.
      by rewrite Hdom. }
    assert (Hagain : run_charms cs gh fuel l1 (dump cd) = Ok (dump cd)).
    { apply (run_charms_again cs gh fuel l1 (dump file) (dump cd)); [|done|done].
      pose proof (charmlist_NoDup file) as Hnd. rewrite Hl in Hnd.
      by apply NoDup_app in Hnd as [? _]. }
    by rewrite (charms_loop_app cs gh fuel _ _ _ _ Hagain).
Qed.

(** C3, amended: when the highest published revision H of a charm is not
    0 and is at most the stored last revision, the scan returns the empty
    dictionary, the loop body leaves the state as it is, and the entry of
    the charm in the file is after the run what it was before. *)
Theorem nothing_new_nothing_changes charm (n : N) (d : details) :
  cs_entity_revision cs charm = Some n ->
  n <> 0%N ->
  Z.of_N n <= default 0 (last_revision d) ->
  CharmInfo.get_charmstore_revisions cs charm fuel
    (default 0 (last_revision d)) = Ok [] /\
  (forall s, charm_data s !! charm = Some (YDict d) ->
             Main.process_charm cs gh fuel charm s = Ok s) /\
  (forall file, file !! charm = Some (YDict d) ->
     (Main.main cs gh fuel file).1 !! charm = Some (YDict d)).
Proof.
  intros Hn Hn0 Hle.
  assert (Hscan : CharmInfo.get_charmstore_revisions cs charm fuel
                    (default 0 (last_revision d)) = Ok []).
  { unfold CharmInfo.get_charmstore_revisions. rewrite Hn.
    rewrite candidates_nonzero, range_down_nil by done. reflexivity. }
  assert (Hsame : forall s, charm_data s !! charm = Some (YDict d) ->
                    Main.process_charm cs gh fuel charm s = Ok s).
  { intros s Hs.
    rewrite (process_charm_empty cs gh fuel charm s (YDict d) Hs Hscan).
    by destruct s. }
  split; [exact Hscan|]. split; [exact Hsame|].
  intros file Hfile. unfold Main.main. by apply charms_loop_keeps.
Qed.

(** C1, amended: when the scan result is not empty and none of its
    records has a user, the loop body stores none of the records: the
    revisions stored for the charm stay as they were, and the last
    revision becomes the largest revision of the scan result. *)
Theorem no_owner_no_records charm (s : state) (v : yaml_value)
    (h : revision_hash) :
  charm_data s !! charm = Some v ->
  CharmInfo.get_charmstore_revisions cs charm fuel
    (default 0 (last_revision (Main.as_details v))) = Ok h ->
  h <> [] ->
  Forall (fun p => p.2 !! "user" = None) h ->
  exists r,
    r ∈ PyDict.keys h /\ (forall k, k ∈ PyDict.keys h -> k <= r) /\
    Main.process_charm cs gh fuel charm s =
    Ok (dump (<[ charm := YDict {| last_revision := Some r;
                                   revisions := revisions (Main.as_details v) |} ]>
                (charm_data s))).
Proof.
  intros Hv Hscan Hne Hnouser.
  destruct (last_sorted_key_is_Some h Hne) as [r Hr].
  exists r. destruct (last_sorted_key_Some h r Hr) as [Hin Hmax].
  split; [done|]. split; [done|].
  rewrite (process_charm_found cs gh fuel charm s v h Hv Hscan Hne).
  rewrite (find_hashes_no_user gh h Hnouser). cbn. rewrite Hr. reflexivity.
Qed.
End ReconcilerClaims.

Lemma nothing_new_nothing_changes_witness :
  let d := {| last_revision := Some 12; revisions := ∅ |} in
  CharmInfo.get_charmstore_revisions no_remote_store "example" 1 12 = Ok [] /\
  (forall s, charm_data s !! "example" = Some (YDict d) ->
     Main.process_charm no_remote_store shared_tip_github 1 "example" s = Ok s) /\
  (forall file, file !! "example" = Some (YDict d) ->
     (Main.main no_remote_store shared_tip_github 1 file).1 !! "example"
       = Some (YDict d)).
Proof.
  apply (nothing_new_nothing_changes no_remote_store shared_tip_github 1
           "example" 12%N {| last_revision := Some 12; revisions := ∅ |}).
  - reflexivity.
  - discriminate.
  - cbn. lia.
Defined.

(** C3, as stated, fails when the highest published revision is 0: with 0
    stored as the last revision the scan returns revision 0, and with 5
    stored a run sets the last revision to 0. *)
Lemma first_release_is_scanned_again :
  cs_entity_revision new_charm_store "example" = Some 0%N /\
  CharmInfo.get_charmstore_revisions new_charm_store "example" 1 0 =
    Ok [(0, {[ "sha" := "1a2b3c4d"; "user" := "canonical";
               "repo" := "example-charm" ]})] /\
  Main.main new_charm_store shared_tip_github 1
    {[ "example" := YDict {| last_revision := Some 5; revisions := ∅ |} ]} =
  ({[ "example" :=
        YDict {| last_revision := Some 0;
                 revisions := {[ 0 := {[ "sha" := "1a2b3c4d";
                                         "user" := "canonical";
                                         "repo" := "example-charm" ]} ]} |} ]},
   None).
Proof. repeat split; vm_compute; reflexivity. Qed.

Lemma no_owner_no_records_witness :
  exists r,
    r ∈ [12; 11] /\ (forall k, k ∈ [12; 11] -> k <= r) /\
    Main.process_charm no_remote_store shared_tip_github 1 "example"
      (dump tracked_at_10) =
    Ok (dump (<[ "example" := YDict {| last_revision := Some r;
                                       revisions := ∅ |} ]> tracked_at_10)).
Proof.
  apply (no_owner_no_records no_remote_store shared_tip_github 1 "example"
           (dump tracked_at_10)
           (YDict {| last_revision := Some 10; revisions := ∅ |})
           [(12, {[ "sha" := "aa" ]}); (11, {[ "sha" := "bb" ]})]).
  - reflexivity.
  - vm_compute. reflexivity.
  - discriminate.
  - repeat constructor.
Defined.

(** C1, as stated, fails: the scan finds revisions 12 and 11, each with a
    commit and without a user, and after the run the store has the last
    revision 12 and neither record. *)
Lemma records_without_owner_are_dropped :
  CharmInfo.get_charmstore_revisions no_remote_store "example" 1 10 =
    Ok [(12, {[ "sha" := "aa" ]}); (11, {[ "sha" := "bb" ]})] /\
  Main.main no_remote_store shared_tip_github 1 tracked_at_10 =
    ({[ "example" := YDict {| last_revision := Some 12; revisions := ∅ |} ]},
     None).
Proof. split; vm_compute; reflexivity. Qed.

(** The end-to-end scenario of the specification: a charm tracked at
    revision 10 with revisions 11 and 12 new in the charmstore. *)
Example end_to_end :
  Main.main two_new_store one_stable_github 1 tracked_at_10 =
  ({[ "example" :=
        YDict {| last_revision := Some 12;
                 revisions :=
                   {[ 12 := {[ "sha" := "c12"; "user" := "canonical";
                               "repo" := "example-charm";
                               "release" := "stable/22.04" ]};
                      11 := {[ "sha" := "c11"; "user" := "canonical";
                               "repo" := "example-charm" ]} ]} |} ]},
   None).
Proof. vm_compute. reflexivity. Qed.

(** * More of the script *)

(** ** The revision in the entity's [Id] *)

Lemma int_acc_pos d p :
  foldl (fun n c => (10 * n + EntityId.digit_value c)%N) (Npos p)
    (Re.chars (NilEmpty.string_of_uint d)) = Npos (Pos.of_uint_acc d p).
Proof.
  revert p. induction d; intros p; cbn; [reflexivity|..];
    match goal with
    | |- foldl _ ?a _ = N.pos (Pos.of_uint_acc _ ?q) =>
        replace a with (N.pos q)
          by (vm_compute (EntityId.digit_value _); lia)
    end; apply IHd.
Qed.

Lemma int_decimal_uint d :
  EntityId.int (Re.chars (NilEmpty.string_of_uint d)) = N.of_uint d.
Proof.
  unfold EntityId.int, N.of_uint.
  induction d; cbn; [reflexivity| exact IHd |..]; apply int_acc_pos.
Qed.

(** [int] reads a number back from its decimal digits. *)
Lemma int_decimal n : EntityId.int (Re.chars (decimal n)) = n.
Proof.
  unfold decimal. rewrite int_decimal_uint. apply DecimalN.Unsigned.of_to.
Qed.

Lemma chars_app (a b : string) :
  Re.chars (a ++ b)%string = Re.chars a ++ Re.chars b.
Proof.
  unfold Re.chars. induction a as [|c a IH]; [reflexivity|].
  change (c :: list_ascii_of_string (a ++ b)%string =
          c :: (list_ascii_of_string a ++ list_ascii_of_string b)).
  by rewrite IH.
Qed.

Lemma after_run_stop f l x r :
  f x = false -> exists l', Re.after_run f (l ++ x :: r) = l' ++ x :: r.
Proof.
  intros Hx. induction l as [|c l IH]; cbn.
  - rewrite Hx. by exists [].
  - destruct (f c); [exact IH|]. by exists (c :: l).
Qed.

Lemma run_all f l :
  Forall (fun c => f c = true) l -> Re.run f l = l /\ Re.after_run f l = [].
Proof.
  induction 1 as [|c l Hc _ [IH1 IH2]]; cbn; [done|].
  rewrite Hc, IH1, IH2. done.
Qed.

Lemma run_stop f body x r :
  Forall (fun c => f c = true) body -> f x = false ->
  Re.run f (body ++ x :: r) = body /\ Re.after_run f (body ++ x :: r) = x :: r.
Proof.
  intros Hbody Hx. induction Hbody as [|c body Hc _ [IH1 IH2]]; cbn.
  - by rewrite Hx.
  - by rewrite Hc, IH1, IH2.
Qed.

Lemma is_hyphen_eq c : EntityId.is_hyphen c = true -> c = "-"%char.
Proof.
  unfold EntityId.is_hyphen. intros Hc%Nat.eqb_eq.
  rewrite <- (ascii_nat_embedding c), Hc. reflexivity.
Qed.

Lemma is_newline_eq c : Re.is_newline c = true -> c = "010"%char.
Proof.
  unfold Re.is_newline. intros Hc%Nat.eqb_eq.
  rewrite <- (ascii_nat_embedding c), Hc. reflexivity.
Qed.

(** No match before the last hyphen: what follows the digits there is more
    than a line feed. *)
Lemma revision_at_before pre c ds :
  ds <> [] -> Forall (fun c => Re.is_digit c = true) ds ->
  EntityId.revision_at (c :: pre ++ "-"%char :: ds) = None.
Proof.
  intros Hne Hds. cbn. destruct (EntityId.is_hyphen c); [|reflexivity].
  destruct (after_run_stop Re.is_digit pre "-"%char ds) as [l' ->];
    [reflexivity|].
  destruct (Re.run Re.is_digit (pre ++ "-"%char :: ds)); [reflexivity|].
  destruct l' as [|? [|? ?]]; destruct ds; try done.
Qed.

Lemma search_revision_at pre ds :
  ds <> [] -> Forall (fun c => Re.is_digit c = true) ds ->
  Re.search EntityId.revision_at (pre ++ "-"%char :: ds) = Some ds.
Proof.
  intros Hne Hds. induction pre as [|c pre IH].
  - cbn [app Re.search]. unfold EntityId.revision_at.
    change (EntityId.is_hyphen "-") with true. cbv iota.
    destruct (run_all _ _ Hds) as [-> ->]. destruct ds; done.
  - cbn [app Re.search]. by rewrite revision_at_before.
Qed.

Lemma decimal_digits n :
  Re.chars (decimal n) <> [] /\
  Forall (fun c => Re.is_digit c = true) (Re.chars (decimal n)).
Proof.
  unfold decimal. split.
  - destruct n as [|p]; [discriminate|]. cbn.
    pose proof (DecimalPos.Unsigned.to_uint_nonnil p) as Hnn.
    destruct (Pos.to_uint p); [done|..]; discriminate.
  - generalize (N.to_uint n). intros d.
    induction d; cbn; constructor; try done.
Qed.

(** X1: an [Id] that ends in a hyphen and the decimal digits of n gives the
    revision n, whatever comes before the hyphen, other hyphens and digits
    included, as long as n has no more digits than [int] converts. *)
Theorem revision_of_id_decimal (prefix : string) (n : N) :
  (length (Re.chars (decimal n)) <= EntityId.int_max_str_digits)%nat ->
  EntityId.revision_of_id (prefix ++ "-" ++ decimal n)%string = Some n.
Proof.
  intros _. unfold EntityId.revision_of_id. rewrite !chars_app.
  destruct (decimal_digits n) as [Hne Hds].
  change (Re.chars "-" ++ ?l) with ("-"%char :: l).
  rewrite search_revision_at by done. cbn. by rewrite int_decimal.
Qed.

Lemma revision_of_id_decimal_witness :
  (length (Re.chars (decimal 316)) <= EntityId.int_max_str_digits)%nat /\
  EntityId.revision_of_id
    ("cs:~openstack-charmers/nova-compute" ++ "-" ++ decimal 316)%string
  = Some 316%N.
Proof.
  assert (Hdigits :
    (length (Re.chars (decimal 316)) <= EntityId.int_max_str_digits)%nat).
  { apply Nat.leb_le. vm_compute. reflexivity. }
  split; [exact Hdigits|].
  apply (revision_of_id_decimal "cs:~openstack-charmers/nova-compute" 316).
  exact Hdigits.
Defined.

(** X2: a revision is read only off the end of the [Id]: when the script
    gets a number, the [Id] ends in a hyphen and a non-empty run of digits
    whose value is that number, with at most one line feed after them. *)
Theorem revision_of_id_Some (id : string) (n : N) :
  EntityId.revision_of_id id = Some n ->
  exists pre ds,
    ds <> [] /\ Forall (fun c => Re.is_digit c = true) ds /\
    n = EntityId.int ds /\
    (Re.chars id = pre ++ "-"%char :: ds \/
     Re.chars id = pre ++ "-"%char :: ds ++ ["010"%char]).
Proof.
  unfold EntityId.revision_of_id.
  destruct (Re.search _ _) as [g|] eqn:Hs; [|discriminate].
  intros [= <-]. apply search_Some in Hs as (pre & post & Hid & Hm).
  exists pre, g. unfold EntityId.revision_at in Hm.
  destruct post as [|c rest]; [discriminate|].
  destruct (EntityId.is_hyphen c) eqn:Hc; [|discriminate].
  apply is_hyphen_eq in Hc as ->.
  pose proof (run_after_run Re.is_digit rest) as Hsplit.
  pose proof (run_Forall Re.is_digit rest) as Hdig.
  destruct (Re.run Re.is_digit rest) as [|d g'] eqn:Hrun; [discriminate|].
  destruct (Re.after_run Re.is_digit rest) as [|c' [|? ?]] eqn:Hafter;
    try discriminate.
  - injection Hm as <-. rewrite app_nil_r in Hsplit.
    repeat split; try done. left. congruence.
  - destruct (Re.is_newline c') eqn:Hnl; [|discriminate].
    apply is_newline_eq in Hnl as ->. injection Hm as <-.
    repeat split; try done. right. congruence.
Qed.

Lemma revision_of_id_Some_witness :
  exists pre ds,
    ds <> [] /\ Forall (fun c => Re.is_digit c = true) ds /\
    316%N = EntityId.int ds /\
    (Re.chars "cs:~openstack-charmers/nova-compute-316" =
       pre ++ "-"%char :: ds \/
     Re.chars "cs:~openstack-charmers/nova-compute-316" =
       pre ++ "-"%char :: ds ++ ["010"%char]).
Proof.
  apply (revision_of_id_Some "cs:~openstack-charmers/nova-compute-316" 316).
  vm_compute. reflexivity.
Defined.

(** ** More on the scanner *)

Lemma keys_set_fresh {K V} `{EqDecision K} (k : K) (v : V) (d : list (K * V)) :
  k ∉ PyDict.keys d -> PyDict.keys (PyDict.set k v d) = PyDict.keys d ++ [k].
Proof.
  unfold PyDict.keys. induction d as [|[k' v'] d IH]; cbn; [done|].
  rewrite not_elem_of_cons. intros [Hne Hnin].
  rewrite decide_False by done. cbn. f_equal. by apply IH.
Qed.

Lemma elem_of_set {K V} `{EqDecision K} (k : K) (v : V) (d : list (K * V)) p :
  p ∈ PyDict.set k v d -> p = (k, v) \/ p ∈ d.
Proof.
  induction d as [|[k' v'] d IH]; cbn.
  - rewrite list_elem_of_singleton. tauto.
  - destruct (decide (k' = k)); rewrite !elem_of_cons; [tauto|].
    intros [?|?%IH]; tauto.
Qed.

Lemma descending_range_down (start stop : Z) :
  descending (range_down start stop).
Proof.
  unfold descending.
  remember (Z.to_nat (start - stop)) as n eqn:Hn.
  revert start Hn. induction n as [|n IH]; intros start Hn.
  - rewrite range_down_nil by lia. constructor.
  - rewrite range_down_cons by lia. constructor; [apply IH; lia|].
    apply Forall_forall. intros x Hx%elem_of_range_down. lia.
Qed.

Lemma descending_NoDup (l : list Z) : descending l -> NoDup l.
Proof.
  unfold descending. induction 1 as [|x l _ IH Hlt]; constructor; [|done].
  intros Hin. rewrite Forall_forall in Hlt. specialize (Hlt _ Hin). lia.
Qed.

Section ScannerMore.
Variable cs : charmstore.
Variable name : string.
Implicit Types (h : revision_hash) (fuel budget attempt : nat).

(** The walk appends: over revisions below all recorded ones, the keys stay
    in descending order. *)
Lemma scan_revisions_descending fuel l h h' :
  CharmInfo.scan_revisions cs name fuel l h = Ok h' ->
  descending (PyDict.keys h ++ l) -> descending (PyDict.keys h').
Proof.
  unfold descending. revert h. induction l as [|revision l IH]; intros h; cbn.
  - intros [= <-]. by rewrite app_nil_r.
  - destruct (CharmInfo.scan_revision cs name fuel revision h) as [h1|e]
      eqn:Hstep; cbn; [|discriminate].
    intros Hrest Hsorted. apply (IH _ Hrest).
    apply scan_revision_step in Hstep as [->|(r & _ & ->)].
    + apply StronglySorted_app in Hsorted as (Hlt & Hh & Hl).
      apply StronglySorted_cons in Hl as [_ Hl].
      apply StronglySorted_app. repeat split; try done.
      intros x1 x2 Hx1 Hx2. apply Hlt; [done | by right].
    + rewrite keys_set_fresh, <- app_assoc; [done|].
      intros Hin.
      pose proof (StronglySorted_app_1_elem_of _ _ _ revision revision
                    Hsorted Hin) as Hlt.
      cbn in Hlt. specialize (Hlt ltac:(by left)). lia.
Qed.

Lemma get_revisions_descending fuel (last_checked_revision : Z) h :
  CharmInfo.get_charmstore_revisions cs name fuel last_checked_revision
    = Ok h ->
  descending (PyDict.keys h).
Proof.
  unfold CharmInfo.get_charmstore_revisions.
  destruct (cs_entity_revision cs name) as [n|]; [|discriminate].
  intros Hscan. apply (scan_revisions_descending _ _ _ _ Hscan). cbn.
  apply descending_range_down.
Qed.

Lemma get_revisions_bounds fuel (n : N) (last_checked_revision : Z) h k :
  cs_entity_revision cs name = Some n ->
  CharmInfo.get_charmstore_revisions cs name fuel last_checked_revision
    = Ok h ->
  k ∈ PyDict.keys h ->
  CharmInfo.effective_last_checked (Z.of_N n) last_checked_revision < k
    <= Z.of_N n.
Proof.
  intros Hn. unfold CharmInfo.get_charmstore_revisions. rewrite Hn.
  unfold CharmInfo.candidates. intros Hscan Hk.
  apply (scan_revisions_keys _ _ _ _ _ _ Hscan) in Hk as [Hk|Hk].
  - by apply elem_of_nil in Hk.
  - by apply elem_of_range_down in Hk.
Qed.

Lemma get_revisions_scanned fuel (last_checked_revision : Z) h :
  CharmInfo.get_charmstore_revisions cs name fuel last_checked_revision
    = Ok h ->
  Forall (fun p => scanned p.2) h.
Proof.
  unfold CharmInfo.get_charmstore_revisions.
  destruct (cs_entity_revision cs name) as [n|]; [|discriminate].
  intros Hscan. eapply scan_revisions_scanned; [exact Hscan | constructor].
Qed.

(** In a descending dictionary the largest key is the first. *)
Lemma last_sorted_key_head (h : revision_hash) :
  descending (PyDict.keys h) ->
  Main.last_sorted_key h = head (PyDict.keys h).
Proof.
  intros Hdesc. destruct h as [|[k r] h]; [reflexivity|].
  destruct (last_sorted_key_is_Some ((k, r) :: h)) as [m Hm]; [done|].
  rewrite Hm. destruct (last_sorted_key_Some _ _ Hm) as [Hin Hmax].
  cbn. f_equal. cbn in Hin, Hdesc, Hmax.
  apply StronglySorted_cons in Hdesc as [Hlt _].
  apply elem_of_cons in Hin as [->|Hin]; [done|].
  rewrite Forall_forall in Hlt. specialize (Hlt _ Hin).
  specialize (Hmax k ltac:(by left)). lia.
Qed.

(** X3: the dictionary that the scanner returns lists its revisions in
    strictly descending order, each of them above the last checked revision
    (-1 for a first release) and at most the highest published one; so the
    revision that [main] takes as the new last revision,
    [sorted(keys)[-1]], is the first key. *)
Theorem scan_result_descends fuel (n : N) (last_checked_revision : Z) h :
  cs_entity_revision cs name = Some n ->
  CharmInfo.get_charmstore_revisions cs name fuel last_checked_revision
    = Ok h ->
  descending (PyDict.keys h) /\
  (forall k, k ∈ PyDict.keys h ->
     CharmInfo.effective_last_checked (Z.of_N n) last_checked_revision < k
       <= Z.of_N n) /\
  Main.last_sorted_key h = head (PyDict.keys h).
Proof.
  intros Hn Hscan.
  pose proof (get_revisions_descending _ _ _ Hscan) as Hdesc.
  split; [done|]. split; [|by apply last_sorted_key_head].
  intros k Hk. by eapply get_revisions_bounds.
Qed.

(** The listing loop after [k] time-outs, [k] below 3. *)
Lemma listing_after_timeouts fuel (V : Z) (k : nat) h :
  (k < 3)%nat ->
  (forall i, (i < k)%nat -> cs_files cs name V i = FilesServerError) ->
  CharmInfo.scan_revision cs name fuel V h =
  match cs_files cs name V k with
  | FilesOk names =>
      if bool_decide ("repo-info" ∈ names)
      then CharmInfo.repo_info_loop cs name fuel V 0 h
      else Ok h
  | FilesEntityNotFound | FilesInteractionError => Ok h
  | FilesOtherError => Raise CharmstoreError
  | FilesServerError =>
      CharmInfo.files_loop cs name (2 - k) fuel V (S k)
        (3 - Z.of_nat (S k)) h
  end.
Proof.
  intros Hk Hbefore. unfold CharmInfo.scan_revision.
  destruct k as [|[|[|k]]]; [| | |lia]; cbn;
    rewrite ?(Hbefore 0%nat), ?(Hbefore 1%nat) by lia; cbn.
  - destruct (cs_files cs name V 0); done.
  - destruct (cs_files cs name V 1); done.
  - destruct (cs_files cs name V 2); done.
Qed.

(** X4: what happens to a revision is decided by the first answer to its
    file listing that is not a time-out, if it comes within three attempts:
    files with a repo-info entry lead to the fetch of that file, files
    without one and the answers "not found" and "login needed" leave the
    dictionary as it is and are not tried again, and any other error is
    raised. Later answers are not looked at. *)
Theorem listing_outcome fuel (V : Z) (k : nat) (h : revision_hash) :
  (k < 3)%nat ->
  (forall i, (i < k)%nat -> cs_files cs name V i = FilesServerError) ->
  match cs_files cs name V k with
  | FilesOk names =>
      CharmInfo.scan_revision cs name fuel V h =
      if bool_decide ("repo-info" ∈ names)
      then CharmInfo.repo_info_loop cs name fuel V 0 h
      else Ok h
  | FilesEntityNotFound | FilesInteractionError =>
      CharmInfo.scan_revision cs name fuel V h = Ok h
  | FilesOtherError =>
      CharmInfo.scan_revision cs name fuel V h = Raise CharmstoreError
  | FilesServerError => True
  end.
Proof.
  intros Hk Hbefore.
  pose proof (listing_after_timeouts fuel V k h Hk Hbefore) as Hout.
  destruct (cs_files cs name V k); done.
Qed.

Lemma scan_revisions_each fuel l h h' V :
  CharmInfo.scan_revisions cs name fuel l h = Ok h' -> V ∈ l ->
  exists h1 h2, CharmInfo.scan_revision cs name fuel V h1 = Ok h2.
Proof.
  revert h. induction l as [|revision l IH]; intros h; cbn.
  - intros _ HV. by apply elem_of_nil in HV.
  - destruct (CharmInfo.scan_revision cs name fuel revision h) as [h1|e]
      eqn:Hstep; cbn; [|discriminate].
    intros Hrest [->|HV]%elem_of_cons; [eauto | by eapply IH].
Qed.

(** X5: an error of the file listing that the script does not catch, on
    any candidate revision, leaves the scan without a result: what the
    revisions above it gave is lost with it. *)
Theorem unexpected_error_loses_scan fuel (n : N) (last_checked_revision V : Z)
    (k : nat) :
  cs_entity_revision cs name = Some n ->
  V ∈ CharmInfo.candidates (Z.of_N n) last_checked_revision ->
  (k < 3)%nat ->
  (forall i, (i < k)%nat -> cs_files cs name V i = FilesServerError) ->
  cs_files cs name V k = FilesOtherError ->
  exists e,
    CharmInfo.get_charmstore_revisions cs name fuel last_checked_revision
      = Raise e.
Proof.
  intros Hn HV Hk Hbefore Herr.
  destruct (CharmInfo.get_charmstore_revisions cs name fuel
              last_checked_revision) as [h|e] eqn:Hscan; [|by exists e].
  exfalso. unfold CharmInfo.get_charmstore_revisions in Hscan.
  rewrite Hn in Hscan.
  destruct (scan_revisions_each _ _ _ _ _ Hscan HV) as (h1 & h2 & Hstep).
  rewrite (listing_after_timeouts fuel V k h1 Hk Hbefore), Herr in Hstep.
  discriminate.
Qed.

(** X6: once the listing of a revision has a repo-info entry, time-outs of
    the fetch of that file are retried without a bound: after any number of
    them the first text that is not empty is the one recorded. *)
Theorem content_fetch_retries fuel (V : Z) names (n : nat) repo_info h :
  cs_files cs name V 0 = FilesOk names ->
  "repo-info" ∈ names ->
  (forall i, (i < n)%nat -> cs_read cs name V i = ReadServerError) ->
  cs_read cs name V n = ReadOk repo_info ->
  repo_info <> "" ->
  (n < fuel)%nat ->
  CharmInfo.scan_revision cs name fuel V h =
  Ok (CharmInfo.record_repo_info V repo_info h).
Proof.
  intros Hfiles Hin Herr Hok Hne Hfuel.
  rewrite (listing_after_timeouts fuel V 0 h) by lia.
  rewrite Hfiles, bool_decide_eq_true_2 by done.
  by apply (repo_info_loop_retries cs name fuel V n).
Qed.

Lemma repo_info_loop_backed fuel V attempt h h' :
  CharmInfo.repo_info_loop cs name fuel V attempt h = Ok h' ->
  h' = h \/
  exists i t r, cs_read cs name V i = ReadOk t /\
                repo_info_record t = Some r /\ h' = PyDict.set V r h.
Proof.
  revert attempt. induction fuel as [|fuel IH]; intros attempt; cbn;
    [discriminate|].
  destruct (cs_read cs name V attempt) as [t| |] eqn:Hread; try discriminate.
  - case_bool_decide as Ht.
    + subst t. rewrite record_repo_info_empty. apply IH.
    + intros [= <-]. rewrite record_repo_info_eq.
      destruct (repo_info_record t) as [r|] eqn:Hr; [|by left].
      right. by exists attempt, t, r.
  - apply IH.
Qed.

Lemma files_loop_backed budget fuel V attempt retry h h' :
  CharmInfo.files_loop cs name budget fuel V attempt retry h = Ok h' ->
  h' = h \/
  exists r, h' = PyDict.set V r h /\
    exists (j : nat) names (i : nat) t,
      (j < attempt + budget)%nat /\ cs_files cs name V j = FilesOk names /\
      "repo-info" ∈ names /\ cs_read cs name V i = ReadOk t /\
      repo_info_record t = Some r.
Proof.
  revert attempt retry. induction budget as [|budget IH];
    intros attempt retry; cbn.
  - destruct (retry >? 0); [discriminate|]. intros [= <-]. by left.
  - destruct (retry >? 0); [|intros [= <-]; by left].
    destruct (cs_files cs name V attempt) as [names| | | |] eqn:Hfiles;
      try discriminate.
    + case_bool_decide as Hin; [|intros [= <-]; by left].
      intros [->|(i & t & r & Hread & Hr & ->)]%repo_info_loop_backed;
        [by left|].
      right. exists r. split; [done|].
      exists attempt, names, i, t. repeat split; try done. lia.
    + intros [->|(r & -> & j & names & i & t & Hj & Hrest)]%IH; [by left|].
      right. exists r. split; [done|]. exists j, names, i, t.
      split; [lia | done].
    + intros [->|(r & -> & j & names & i & t & Hj & Hrest)]%IH; [by left|].
      right. exists r. split; [done|]. exists j, names, i, t.
      split; [lia | done].
    + intros [->|(r & -> & j & names & i & t & Hj & Hrest)]%IH; [by left|].
      right. exists r. split; [done|]. exists j, names, i, t.
      split; [lia | done].
Qed.

Lemma scan_revisions_backed fuel l h h' :
  CharmInfo.scan_revisions cs name fuel l h = Ok h' ->
  (forall k r, (k, r) ∈ h -> backed cs name k r) ->
  forall k r, (k, r) ∈ h' -> backed cs name k r.
Proof.
  revert h. induction l as [|revision l IH]; intros h; cbn.
  - by intros [= <-].
  - destruct (CharmInfo.scan_revision cs name fuel revision h) as [h1|e]
      eqn:Hstep; cbn; [|discriminate].
    intros Hrest Hh. apply (IH _ Hrest).
    apply files_loop_backed in Hstep as [->|(r & -> & Hback)]; [done|].
    intros k r' [[= -> ->]|Hin]%elem_of_set; [exact Hback | by apply Hh].
Qed.

(** X7: the scanner records nothing of its own: every record of its result
    is the one built from a repo-info text that the charmstore gave for
    that very revision, after a file listing of that revision, within the
    three attempts, had a repo-info entry. *)
Theorem scanned_record_has_provenance fuel (last_checked_revision : Z) h :
  CharmInfo.get_charmstore_revisions cs name fuel last_checked_revision
    = Ok h ->
  forall k r, (k, r) ∈ h -> backed cs name k r.
Proof.
  unfold CharmInfo.get_charmstore_revisions.
  destruct (cs_entity_revision cs name) as [n|]; [|discriminate].
  intros Hscan. apply (scan_revisions_backed _ _ _ _ Hscan).
  intros k r Hin. by apply elem_of_nil in Hin.
Qed.
End ScannerMore.

Lemma scan_result_descends_witness :
  descending (PyDict.keys two_new_result) /\
  (forall k, k ∈ PyDict.keys two_new_result ->
     CharmInfo.effective_last_checked (Z.of_N 12) 10 < k <= Z.of_N 12) /\
  Main.last_sorted_key two_new_result = head (PyDict.keys two_new_result).
Proof.
  apply (scan_result_descends two_new_store "example" 1 12 10 two_new_result).
  - reflexivity.
  - vm_compute. reflexivity.
Defined.

Lemma listing_outcome_witness :
  CharmInfo.scan_revision late_listing_store "example" 1 12 [] =
  if bool_decide ("repo-info" ∈ ["repo-info"])
  then CharmInfo.repo_info_loop late_listing_store "example" 1 12 0 []
  else Ok [].
Proof.
  refine (listing_outcome late_listing_store "example" 1 12 2 [] _ _).
  - lia.
  - intros i Hi. do 2 (destruct i as [|i]; [reflexivity|]). lia.
Defined.

Lemma unexpected_error_loses_scan_witness :
  exists e,
    CharmInfo.get_charmstore_revisions broken_store "example" 1 10 = Raise e.
Proof.
  apply (unexpected_error_loses_scan broken_store "example" 1 12 10 12 0).
  - reflexivity.
  - change (12 ∈ [12; 11]). left.
  - lia.
  - intros i Hi. lia.
  - reflexivity.
Defined.

Lemma content_fetch_retries_witness :
  CharmInfo.scan_revision slow_read_store "example" 6 12 [] =
  Ok (CharmInfo.record_repo_info 12 example_repo_info []).
Proof.
  apply (content_fetch_retries slow_read_store "example" 6 12
           ["repo-info"] 5 example_repo_info []).
  - reflexivity.
  - left.
  - intros i Hi. do 5 (destruct i as [|i]; [reflexivity|]). lia.
  - reflexivity.
  - discriminate.
  - lia.
Defined.

Lemma scanned_record_has_provenance_witness :
  backed two_new_store "example" 12
    {[ "sha" := "c12"; "user" := "canonical"; "repo" := "example-charm" ]}.
Proof.
  apply (scanned_record_has_provenance two_new_store "example" 1 10
           two_new_result).
  - vm_compute. reflexivity.
  - left.
Defined.

(** ** More on the commit window *)

(** X8: the branches that count as stable are those named [stable/]
    followed by at least one character, none of them a line feed except
    for one that may end the name. *)
Theorem is_stable_iff (name : string) :
  Re.is_stable name = true <->
  exists body,
    body <> [] /\ Forall (fun c => Re.any_char c = true) body /\
    (Re.chars name = Re.chars "stable/" ++ body \/
     Re.chars name = Re.chars "stable/" ++ body ++ ["010"%char]).
Proof.
  unfold Re.is_stable. split.
  - destruct (Re.literal _ _) as [rest|] eqn:Hlit; [|discriminate].
    apply literal_Some in Hlit.
    pose proof (run_after_run Re.any_char rest) as Hsplit.
    pose proof (run_Forall Re.any_char rest) as Hall.
    intros [Hne Hafter]%andb_true_iff.
    exists (Re.run Re.any_char rest).
    split; [by apply negb_true_iff, bool_decide_eq_false in Hne|].
    split; [done|].
    destruct (Re.after_run Re.any_char rest) as [|c [|? ?]]; try discriminate.
    + left. rewrite app_nil_r in Hsplit. congruence.
    + right. apply is_newline_eq in Hafter as ->. congruence.
  - intros (body & Hne & Hall & [-> | ->]); rewrite literal_app.
    + destruct (run_all _ _ Hall) as [-> ->].
      by rewrite bool_decide_eq_false_2.
    + destruct (run_stop Re.any_char body "010"%char [] Hall) as [-> ->];
        [reflexivity|].
      by rewrite bool_decide_eq_false_2.
Qed.

Section WindowMore.
Implicit Types (commits : commit_dict) (bs : list branch) (sha name : string).

Lemma keys_set_all name shas commits sha :
  sha ∈ PyDict.keys (set_all name shas commits) <->
  sha ∈ shas \/ sha ∈ PyDict.keys commits.
Proof.
  unfold set_all. revert commits. induction shas as [|s shas IH];
    intros commits; cbn [foldl].
  - rewrite elem_of_nil. tauto.
  - rewrite IH, elem_of_keys_set, elem_of_cons. tauto.
Qed.

(** An assignment keeps the keys of a dictionary distinct. *)
Lemma NoDup_keys_set {K V} `{EqDecision K} (k : K) (v : V) (d : list (K * V)) :
  NoDup (PyDict.keys d) -> NoDup (PyDict.keys (PyDict.set k v d)).
Proof.
  intros Hnd. destruct (decide (k ∈ PyDict.keys d)) as [Hin|Hnin].
  - revert Hnd Hin. unfold PyDict.keys.
    induction d as [|[k' v'] d IH]; cbn.
    { intros _ Hin. by apply elem_of_nil in Hin. }
    destruct (decide (k' = k)) as [->|Hne]; cbn; [done|].
    rewrite !NoDup_cons, elem_of_cons.
    intros [Hk' Hnd] [?|Hin]; [done|]. split; [|by apply IH].
    change (k' ∉ PyDict.keys (PyDict.set k v d)).
    rewrite elem_of_keys_set. tauto.
  - rewrite keys_set_fresh by done. apply NoDup_app. split; [done|].
    split; [|apply NoDup_singleton].
    intros x Hx Hx'%list_elem_of_singleton. by subst.
Qed.

Lemma length_keys_set {K V} `{EqDecision K} (k : K) (v : V) (d : list (K * V)) :
  (length (PyDict.set k v d) <= S (length d))%nat.
Proof.
  induction d as [|[k' v'] d IH]; cbn; [lia|].
  destruct (decide (k' = k)); cbn; lia.
Qed.

Lemma NoDup_set_all name shas commits :
  NoDup (PyDict.keys commits) ->
  NoDup (PyDict.keys (set_all name shas commits)).
Proof.
  unfold set_all. revert commits. induction shas as [|s shas IH];
    intros commits Hnd; cbn; [done|].
  by apply IH, NoDup_keys_set.
Qed.

Lemma length_set_all name shas commits :
  (length (set_all name shas commits) <= length shas + length commits)%nat.
Proof.
  unfold set_all. revert commits. induction shas as [|s shas IH];
    intros commits; cbn; [lia|].
  pose proof (IH (PyDict.set s name commits)).
  pose proof (length_keys_set s name commits). lia.
Qed.

(** The loop over the branches as a fold over the stable ones. *)
Lemma branches_loop_filter bs commits :
  CharmGit.branches_loop bs commits =
  foldl (fun c b => set_all (branch_name b) (lookback_window b) c) commits
    (stable_branches bs).
Proof.
  unfold stable_branches. revert commits.
  induction bs as [|b bs IH]; intros commits; [reflexivity|].
  destruct (Re.is_stable (branch_name b)) eqn:Hb.
  - rewrite branches_loop_cons_stable by done.
    rewrite filter_cons, decide_True by done. cbn. apply IH.
  - cbn [CharmGit.branches_loop]. rewrite Hb.
    rewrite filter_cons, decide_False by congruence. apply IH.
Qed.

Lemma get_branches_loop_Some bs commits sha name :
  PyDict.get sha (CharmGit.branches_loop bs commits) = Some name ->
  PyDict.get sha commits = Some name \/
  exists b, b ∈ bs /\ Re.is_stable (branch_name b) = true /\
            name = branch_name b /\ sha ∈ lookback_window b.
Proof.
  revert commits. induction bs as [|b bs IH]; intros commits; [by left|].
  destruct (Re.is_stable (branch_name b)) eqn:Hb.
  - rewrite branches_loop_cons_stable by done.
    intros [Hget|(b' & Hb' & Hrest)]%IH.
    + rewrite get_set_all in Hget. case_decide as Hin; [|by left].
      injection Hget as <-. right. exists b. split; [by left | done].
    + right. exists b'. split; [by right | done].
  - cbn. rewrite Hb. intros [Hget|(b' & Hb' & Hrest)]%IH; [by left|].
    right. exists b'. split; [by right | done].
Qed.

Lemma keys_branches_loop bs commits sha :
  sha ∈ PyDict.keys (CharmGit.branches_loop bs commits) <->
  sha ∈ PyDict.keys commits \/
  exists b, b ∈ bs /\ Re.is_stable (branch_name b) = true /\
            sha ∈ lookback_window b.
Proof.
  revert commits. induction bs as [|b bs IH]; intros commits.
  - cbn. split; [by left|]. intros [?|(b & Hb%elem_of_nil & _)]; done.
  - destruct (Re.is_stable (branch_name b)) eqn:Hb.
    + rewrite branches_loop_cons_stable, IH, keys_set_all by done. split.
      * intros [[Hin|Hin]|(b' & Hb' & Hrest)]; [|by left|].
        -- right. exists b. split; [by left | done].
        -- right. exists b'. split; [by right | done].
      * intros [Hin|(b' & [->|Hb']%elem_of_cons & Hst & Hin)].
        -- left. by right.
        -- left. by left.
        -- right. by exists b'.
    + cbn [CharmGit.branches_loop]. rewrite Hb, IH. split.
      * intros [Hin|(b' & Hb' & Hrest)]; [by left|].
        right. exists b'. split; [by right | done].
      * intros [Hin|(b' & [->|Hb']%elem_of_cons & Hst & Hin)];
          [by left | congruence |].
        right. by exists b'.
Qed.

Lemma NoDup_branches_loop bs commits :
  NoDup (PyDict.keys commits) ->
  NoDup (PyDict.keys (CharmGit.branches_loop bs commits)).
Proof.
  revert commits. induction bs as [|b bs IH]; intros commits Hnd; [done|].
  destruct (Re.is_stable (branch_name b)) eqn:Hb.
  - rewrite branches_loop_cons_stable by done. by apply IH, NoDup_set_all.
  - cbn. rewrite Hb. by apply IH.
Qed.

Lemma length_lookback_window b :
  (length (lookback_window b) <= STABLE_COMMIT_LOOKBACK)%nat.
Proof. unfold lookback_window. rewrite length_take. lia. Qed.

Lemma length_branches_loop bs commits :
  (length (CharmGit.branches_loop bs commits) <=
   STABLE_COMMIT_LOOKBACK * length (stable_branches bs) + length commits)%nat.
Proof.
  unfold stable_branches. revert commits.
  induction bs as [|b bs IH]; intros commits; [cbn; lia|].
  destruct (Re.is_stable (branch_name b)) eqn:Hb.
  - rewrite branches_loop_cons_stable by done.
    rewrite filter_cons, decide_True by done. cbn [length].
    pose proof (IH (set_all (branch_name b) (lookback_window b) commits)).
    pose proof (length_set_all (branch_name b) (lookback_window b) commits).
    pose proof (length_lookback_window b). lia.
  - cbn [CharmGit.branches_loop]. rewrite Hb.
    rewrite filter_cons, decide_False by congruence. apply IH.
Qed.

(** X9: the commits of the dictionary are exactly those in the window (the
    20 newest commits) of some stable branch, and the branch stored for a
    commit is a stable branch that has it in its window: no commit is ever
    given to a branch that is not stable or that does not have it among
    its 20 newest. *)
Theorem stable_commits_sound_complete bs sha :
  (sha ∈ PyDict.keys (CharmGit.stable_commits bs) <->
   exists b, b ∈ bs /\ Re.is_stable (branch_name b) = true /\
             sha ∈ lookback_window b) /\
  (forall name, PyDict.get sha (CharmGit.stable_commits bs) = Some name ->
     exists b, b ∈ bs /\ Re.is_stable (branch_name b) = true /\
               name = branch_name b /\ sha ∈ lookback_window b).
Proof.
  unfold CharmGit.stable_commits. split.
  - rewrite keys_branches_loop. split; [|by right].
    intros [Hin|?]; [by apply elem_of_nil in Hin | done].
  - intros name [Hget|?]%get_branches_loop_Some; [discriminate | done].
Qed.

(** X10: the dictionary has every commit once, and at most 20 commits for
    each stable branch of the repository. *)
Theorem stable_commits_size bs :
  NoDup (PyDict.keys (CharmGit.stable_commits bs)) /\
  (length (CharmGit.stable_commits bs) <=
   STABLE_COMMIT_LOOKBACK * length (stable_branches bs))%nat.
Proof.
  unfold CharmGit.stable_commits. split.
  - apply NoDup_branches_loop. constructor.
  - pose proof (length_branches_loop bs []). cbn [length] in *. lia.
Qed.

(** X11: branches that are not stable, and on a stable branch the commits
    after the 20th, have no effect on the dictionary, neither on its
    entries nor on their order. *)
Theorem stable_commits_ignores bs :
  CharmGit.stable_commits bs =
  CharmGit.stable_commits (truncated <$> stable_branches bs).
Proof.
  unfold CharmGit.stable_commits. rewrite !branches_loop_filter.
  assert (Heq : stable_branches (truncated <$> stable_branches bs)
                = truncated <$> stable_branches bs).
  { unfold stable_branches. induction bs as [|b bs IH]; [reflexivity|].
    destruct (Re.is_stable (branch_name b)) eqn:Hb.
    - rewrite filter_cons, decide_True by done. cbn [fmap list_fmap].
      rewrite filter_cons, decide_True by done. f_equal. exact IH.
    - rewrite filter_cons, decide_False by congruence. exact IH. }
  rewrite Heq. clear Heq. generalize (@nil (string * string)).
  induction (stable_branches bs) as [|b l IH]; intros commits; [reflexivity|].
  cbn. rewrite <- IH. do 2 f_equal.
  unfold lookback_window, truncated. cbn. by rewrite take_take.
Qed.
End WindowMore.

(** ** More on the reconciler *)

Section ReconcilerMore.
Variable cs : charmstore.
Variable gh : github.
Variable fuel : nat.
Implicit Types (s : state) (d : details) (h : revision_hash) (file : store).

Lemma keeps_refl d : keeps d d.
Proof. split; [done|]. intros k r Hr. by exists r. Qed.

Lemma keeps_trans d1 d2 d3 : keeps d1 d2 -> keeps d2 d3 -> keeps d1 d3.
Proof.
  intros [Hl1 Hr1] [Hl2 Hr2]. split; [auto|].
  intros k r (r2 & Hk2 & Hsub2)%Hr1.
  apply Hr2 in Hk2 as (r3 & Hk3 & Hsub3). exists r3. split; [done|].
  by etrans.
Qed.

Lemma keeps_store_revision revision (r : record) d :
  keeps d (Main.store_revision revision r d).
Proof.
  unfold Main.store_revision. split.
  { by destruct (revisions d !! revision). }
  intros k r0 Hk. destruct (decide (k = revision)) as [->|Hne].
  - rewrite Hk. cbn. rewrite lookup_insert_eq. eexists. split; [done|].
    rewrite dom_union_L. apply union_subseteq_r.
  - destruct (revisions d !! revision); cbn; rewrite lookup_insert_ne by done;
      by exists r0.
Qed.

Lemma keeps_join_loop hashes h d d' :
  Main.join_loop hashes h d = Ok d' -> keeps d d'.
Proof.
  revert d. induction h as [|[revision r] h IH]; intros d; cbn.
  - intros [= <-]. apply keeps_refl.
  - destruct (Main.release_loop hashes r) as [rj|]; cbn; [|discriminate].
    intros Hrest%IH. eapply keeps_trans; [|exact Hrest].
    apply keeps_store_revision.
Qed.

Lemma keeps_set_last_revision r d : keeps d (Main.set_last_revision r d).
Proof. split; [by eauto|]. intros k r0 Hk. by exists r0. Qed.

(** An invariant of the entry of one charm, in the data and in the file. *)
Lemma charms_loop_entry (P : yaml_value -> Prop) charm :
  (forall s s' v, charm_data s !! charm = Some v -> P v ->
     Main.process_charm cs gh fuel charm s = Ok s' ->
     exists v', charm_data s' !! charm = Some v' /\ P v') ->
  forall l s,
    (exists v, charm_data s !! charm = Some v /\ P v) ->
    (exists v, yaml_file s !! charm = Some v /\ P v) ->
    exists v', (Main.charms_loop cs gh fuel l s).1 !! charm = Some v' /\ P v'.
Proof.
  intros Hstep. induction l as [|c l IH]; intros s Hcd Hfile; cbn; [done|].
  destruct (Main.process_charm cs gh fuel c s) as [s'|e] eqn:Hc; [|done].
  assert (Hcd' : exists v, charm_data s' !! charm = Some v /\ P v).
  { destruct Hcd as (v & Hv & HP).
    destruct (decide (c = charm)) as [->|Hne]; [by eapply Hstep|].
    exists v. split; [|done]. rewrite <- Hv.
    by eapply process_charm_other. }
  apply IH; [done|].
  destruct (process_charm_file _ _ _ _ _ _ Hc) as [->| ->]; done.
Qed.

Lemma charms_loop_dom l s :
  dom (yaml_file s) = dom (charm_data s) ->
  dom (Main.charms_loop cs gh fuel l s).1 = dom (charm_data s).
Proof.
  revert s. induction l as [|c l IH]; intros s Hdom; cbn; [done|].
  destruct (Main.process_charm cs gh fuel c s) as [s'|e] eqn:Hc; [|done].
  rewrite <- (process_charm_dom _ _ _ _ _ _ Hc). apply IH.
  destruct (process_charm_file _ _ _ _ _ _ Hc) as [Heq|Hdump].
  - rewrite Heq, Hdom. symmetry. by eapply process_charm_dom.
  - by rewrite Hdump.
Qed.

(** X12: a run neither adds a charm to the file nor removes one, however
    it ends. *)
Theorem main_keeps_charms file :
  dom (Main.main cs gh fuel file).1 = dom file.
Proof. unfold Main.main. by rewrite charms_loop_dom. Qed.

(** X13: a run never removes what the file stores for a charm: the entry
    stays a mapping, a last revision stays, every stored revision stays,
    and every field of a stored record stays. *)
Theorem main_keeps_records file charm d :
  file !! charm = Some (YDict d) ->
  exists d', (Main.main cs gh fuel file).1 !! charm = Some (YDict d') /\
             keeps d d'.
Proof.
  intros Hfile. unfold Main.main.
  destruct (charms_loop_entry
              (fun v => exists d', v = YDict d' /\ keeps d d') charm)
    with (l := Main.charmlist file) (s := dump file)
    as (v' & Hv' & d' & -> & Hkeeps).
  - intros s s' v Hv (d1 & -> & Hd1)
      (v0 & Hv0 & [[_ ->]|(h & d2 & r & _ & _ & _ & Hd2 & ->)])%process_charm_Ok;
      rewrite Hv in Hv0; injection Hv0 as <-; cbn.
    + exists (YDict d1). split; [done|]. by exists d1.
    + rewrite lookup_insert_eq. eexists. split; [done|]. eexists.
      split; [done|]. eapply keeps_trans; [exact Hd1|].
      eapply keeps_trans; [|apply keeps_set_last_revision].
      destruct (Main.find_hashes gh h) as [[hs|]|]; cbn in Hd2;
        [by eapply keeps_join_loop| |done].
      injection Hd2 as <-. apply keeps_refl.
  - exists (YDict d). split; [done|]. exists d. split; [done|].
    apply keeps_refl.
  - exists (YDict d). split; [done|]. exists d. split; [done|].
    apply keeps_refl.
  - by exists d'.
Qed.

Lemma elem_of_charmlist file c : c ∈ Main.charmlist file <-> c ∈ dom file.
Proof.
  unfold Main.charmlist. rewrite merge_sort_Permutation.
  apply elem_of_elements.
Qed.

(** Charms that the loop does not visit keep their entry. *)
Lemma charms_loop_untouched l s c :
  c ∉ l -> charm_data s !! c = yaml_file s !! c ->
  (Main.charms_loop cs gh fuel l s).1 !! c = yaml_file s !! c.
Proof.
  revert s. induction l as [|c' l IH]; intros s Hnin Heq; cbn; [done|].
  apply not_elem_of_cons in Hnin as [Hne Hnin].
  destruct (Main.process_charm cs gh fuel c' s) as [s'|e] eqn:Hc; [|done].
  pose proof (process_charm_other _ _ _ _ _ _ _ Hc Hne) as Hsame.
  destruct (process_charm_file _ _ _ _ _ _ Hc) as [Hfile|Hdump].
  - rewrite IH; [by rewrite Hfile | done | congruence].
  - rewrite IH; [|done|by rewrite Hdump].
    rewrite Hdump. cbn. congruence.
Qed.

Lemma charms_loop_nothing_new file l s :
  (forall charm v, file !! charm = Some v ->
     CharmInfo.get_charmstore_revisions cs charm fuel (stored_last_revision v)
       = Ok []) ->
  NoDup l -> yaml_file s = file ->
  (forall c, c ∈ l -> c ∈ dom file /\ charm_data s !! c = file !! c) ->
  Main.charms_loop cs gh fuel l s = (file, None).
Proof.
  intros Hnone Hnd. revert s. induction Hnd as [|c l Hnin Hnd IH];
    intros s Hfile Hl; cbn; [by rewrite Hfile|].
  destruct (Hl c) as [[v Hv]%elem_of_dom Hcd]; [by left|].
  rewrite Hv in Hcd.
  rewrite (process_charm_empty cs gh fuel c s v Hcd (Hnone _ _ Hv)).
  apply IH; [done|]. intros c' Hc'. cbn.
  destruct (Hl c') as [Hdom Hcd']; [by right|]. split; [done|].
  rewrite <- Hcd'. unfold normalized. destruct v; [done|].
  apply lookup_insert_ne. intros ->. done.
Qed.

(** X14: when the scan of every charm of the file returns the empty
    dictionary, the run ends without an exception and the file is what it
    was: it is never written, and a bare value made a mapping in memory is
    not saved. *)
Theorem nothing_new_no_write file :
  (forall charm v, file !! charm = Some v ->
     CharmInfo.get_charmstore_revisions cs charm fuel (stored_last_revision v)
       = Ok []) ->
  Main.main cs gh fuel file = (file, None).
Proof.
  intros Hnone. unfold Main.main.
  apply charms_loop_nothing_new; [done|apply charmlist_NoDup|done|].
  intros c Hc%elem_of_charmlist. done.
Qed.

(** X15: for a charm whose highest published revision H is not 0, a run
    never lowers the stored last revision, and never takes it above the
    larger of H and what was stored. *)
Theorem last_revision_grows file charm (n : N) v :
  cs_entity_revision cs charm = Some n ->
  n <> 0%N ->
  file !! charm = Some v ->
  exists v', (Main.main cs gh fuel file).1 !! charm = Some v' /\
    stored_last_revision v <= stored_last_revision v'
      <= Z.max (stored_last_revision v) (Z.of_N n).
Proof.
  intros Hn Hn0 Hfile. unfold Main.main.
  apply (charms_loop_entry
           (fun v' => stored_last_revision v <= stored_last_revision v'
                        <= Z.max (stored_last_revision v) (Z.of_N n))).
  - intros s s' v1 Hv1 HP
      (v0 & Hv0 & [[_ ->]|(h & d2 & r & Hscan & _ & Hr & _ & ->)])%process_charm_Ok;
      rewrite Hv1 in Hv0; injection Hv0 as <-; cbn.
    + exists (YDict (Main.as_details v1)).
      split; [by apply normalized_lookup|]. exact HP.
    + rewrite lookup_insert_eq. eexists. split; [done|].
      unfold stored_last_revision at 2 3. cbn.
      apply last_sorted_key_Some in Hr as [Hr _].
      pose proof (get_revisions_bounds _ _ _ _ _ _ _ Hn Hscan Hr) as Hb.
      unfold CharmInfo.effective_last_checked in Hb.
      destruct (Z.eqb_spec (Z.of_N n) 0); [lia|].
      fold (stored_last_revision v1) in Hb. lia.
  - exists v. split; [done | lia].
  - exists v. split; [done | lia].
Qed.

(** A charm whose processing raises ends the loop. *)
Lemma charms_loop_stops l1 c0 l2 s v :
  c0 ∉ l1 -> charm_data s !! c0 = Some v ->
  (forall s', charm_data s' !! c0 = Some v ->
     exists e, Main.process_charm cs gh fuel c0 s' = Raise e) ->
  (Main.charms_loop cs gh fuel (l1 ++ c0 :: l2) s).2 <> None /\
  (Main.charms_loop cs gh fuel (l1 ++ c0 :: l2) s).1 =
  (Main.charms_loop cs gh fuel l1 s).1.
Proof.
  intros Hnin Hv Hraise. revert s Hv.
  induction l1 as [|c l1 IH]; intros s Hv; cbn.
  - destruct (Hraise s Hv) as [e ->]. done.
  - apply not_elem_of_cons in Hnin as [Hne Hnin].
    destruct (Main.process_charm cs gh fuel c s) as [s'|e] eqn:Hc; [|done].
    apply IH; [done|]. rewrite <- Hv.
    eapply process_charm_other; [exact Hc | done].
Qed.

Lemma main_stops file l1 c0 l2 v :
  Main.charmlist file = l1 ++ c0 :: l2 ->
  file !! c0 = Some v ->
  (forall s', charm_data s' !! c0 = Some v ->
     exists e, Main.process_charm cs gh fuel c0 s' = Raise e) ->
  (Main.main cs gh fuel file).2 <> None /\
  forall c, c ∈ c0 :: l2 -> (Main.main cs gh fuel file).1 !! c = file !! c.
Proof.
  intros Hl Hv Hraise. unfold Main.main. rewrite Hl.
  pose proof (charmlist_NoDup file) as Hnd. rewrite Hl in Hnd.
  apply NoDup_app in Hnd as (_ & Hdisj & _).
  destruct (charms_loop_stops l1 c0 l2 (dump file) v) as [Hexn Hfile];
    [|done|done|].
  { intros Hin. apply (Hdisj _ Hin). by left. }
  split; [done|]. intros c Hc. rewrite Hfile.
  rewrite charms_loop_untouched; [done| |done].
  intros Hin. by apply (Hdisj _ Hin).
Qed.

Lemma process_charm_scan_raise charm s v e :
  charm_data s !! charm = Some v ->
  CharmInfo.get_charmstore_revisions cs charm fuel (stored_last_revision v)
    = Raise e ->
  Main.process_charm cs gh fuel charm s = Raise e.
Proof.
  unfold Main.process_charm, stored_last_revision. by intros -> ->.
Qed.

(** X16: when the scan of a charm raises (the charmstore does not know the
    charm, or answers with an error that the scanner does not catch), the
    run ends with an exception, and that charm and every charm after it in
    the sorted order have in the file the entry they had before the run. *)
Theorem scan_failure_stops_run file l1 c0 l2 v e :
  Main.charmlist file = l1 ++ c0 :: l2 ->
  file !! c0 = Some v ->
  CharmInfo.get_charmstore_revisions cs c0 fuel (stored_last_revision v)
    = Raise e ->
  (Main.main cs gh fuel file).2 <> None /\
  forall c, c ∈ c0 :: l2 -> (Main.main cs gh fuel file).1 !! c = file !! c.
Proof.
  intros Hl Hv Hscan. apply (main_stops file l1 c0 l2 v); [done..|].
  intros s' Hs'. exists e. by apply (process_charm_scan_raise c0 s' v e).
Qed.

Lemma find_hashes_github_down h :
  (forall user repo, gh user repo = None) ->
  Forall (fun p => scanned p.2) h ->
  Exists (fun p => is_Some (p.2 !! "user")) h ->
  Main.find_hashes gh h = Raise GithubError.
Proof.
  intros Hdown Hh Hex. induction Hh as [|[k r] h [_ Hur] Hh IH]; cbn.
  - by apply Exists_nil in Hex.
  - cbn in Hur. destruct (r !! "user") as [user|] eqn:Huser.
    + destruct (proj1 Hur) as [repo ->]; [eauto|].
      unfold CharmGit.stable_sha_dict. by rewrite Hdown.
    + apply IH. apply Exists_cons in Hex as [[u Hu]|Hex]; [|done].
      cbn in Hu. congruence.
Qed.

(** X17: when GitHub answers no request and the scan of a charm has found
    a revision with a user, the run ends with an exception before anything
    is stored for that charm: its entry in the file, last revision
    included, and the entries of the charms after it are what they were,
    so the scanned revisions are scanned again by the next run. *)
Theorem github_failure_stops_run file l1 c0 l2 v h :
  Main.charmlist file = l1 ++ c0 :: l2 ->
  file !! c0 = Some v ->
  CharmInfo.get_charmstore_revisions cs c0 fuel (stored_last_revision v)
    = Ok h ->
  Exists (fun p => is_Some (p.2 !! "user")) h ->
  (forall user repo, gh user repo = None) ->
  (Main.main cs gh fuel file).2 <> None /\
  forall c, c ∈ c0 :: l2 -> (Main.main cs gh fuel file).1 !! c = file !! c.
Proof.
  intros Hl Hv Hscan Hex Hdown. apply (main_stops file l1 c0 l2 v); [done..|].
  intros s' Hs'. exists GithubError.
  assert (Hne : h <> []) by (intros ->; by apply Exists_nil in Hex).
  rewrite (process_charm_found cs gh fuel c0 s' v h Hs' Hscan Hne).
  rewrite find_hashes_github_down; [done..| |done].
  by eapply get_revisions_scanned.
Qed.

Lemma find_hashes_skip (l1 : revision_hash) p l2 :
  Forall (fun q => q.2 !! "user" = None) l1 ->
  Main.find_hashes gh (l1 ++ p :: l2) = Main.find_hashes gh (p :: l2).
Proof.
  induction 1 as [|[k r] l1 Hr _ IH]; [reflexivity|].
  cbn in Hr. cbn [app Main.find_hashes]. by rewrite Hr.
Qed.

(** X18: the one repository that is asked for the commits of a whole batch
    is that of the highest scanned revision that has a user; the users and
    repositories of the revisions below it are not looked at. *)
Theorem hashes_of_highest_owner name (last_checked_revision : Z) h
    (revision : Z) (r : record) user repo :
  CharmInfo.get_charmstore_revisions cs name fuel last_checked_revision
    = Ok h ->
  (revision, r) ∈ h ->
  r !! "user" = Some user ->
  r !! "repo" = Some repo ->
  (forall revision' (r' : record),
     (revision', r') ∈ h -> revision < revision' -> r' !! "user" = None) ->
  Main.find_hashes gh h =
  (hashes ← CharmGit.stable_sha_dict gh user repo; Ok (Some hashes)).
Proof.
  intros Hscan Hin Huser Hrepo Hhigher.
  pose proof (get_revisions_descending _ _ _ _ _ Hscan) as Hdesc.
  apply list_elem_of_split in Hin as (l1 & l2 & ->).
  rewrite find_hashes_skip.
  - cbn. by rewrite Huser, Hrepo.
  - apply Forall_forall. intros [k q] Hq. cbn.
    apply (Hhigher k q); [apply elem_of_app; by left|].
    unfold descending, PyDict.keys in Hdesc. rewrite map_app in Hdesc.
    cbn in Hdesc.
    apply (StronglySorted_app_1_elem_of _ _ _ k revision Hdesc).
    + apply list_elem_of_fmap. by exists (k, q).
    + by left.
Qed.

Lemma join_loop_other hashes h d d' (k : Z) :
  Main.join_loop hashes h d = Ok d' -> k ∉ PyDict.keys h ->
  revisions d' !! k = revisions d !! k.
Proof.
  revert d. induction h as [|[revision r] h IH]; intros d; cbn.
  - by intros [= <-].
  - destruct (Main.release_loop hashes r) as [rj|]; cbn; [|discriminate].
    intros Hrest [Hne Hnin]%not_elem_of_cons.
    rewrite (IH _ Hrest Hnin). unfold Main.store_revision.
    destruct (revisions d !! revision); cbn; by rewrite lookup_insert_ne.
Qed.

Lemma store_revision_lookup revision (r : record) d :
  exists r', revisions (Main.store_revision revision r d) !! revision = Some r'
             /\ r ⊆ r'.
Proof.
  unfold Main.store_revision.
  destruct (revisions d !! revision) as [stored|]; cbn;
    rewrite lookup_insert_eq; eexists; (split; [done|]).
  - apply map_union_subseteq_l.
  - done.
Qed.

Lemma join_loop_stores hashes h d d' :
  NoDup (PyDict.keys h) ->
  Main.join_loop hashes h d = Ok d' ->
  forall (k : Z) (r : record), (k, r) ∈ h ->
    exists rj r', Main.release_loop hashes r = Ok rj /\
                  revisions d' !! k = Some r' /\ rj ⊆ r'.
Proof.
  revert d. induction h as [|[revision r0] h IH]; intros d Hnd; cbn.
  - intros _ k r Hin. by apply elem_of_nil in Hin.
  - cbn in Hnd. apply NoDup_cons in Hnd as [Hnin Hnd].
    destruct (Main.release_loop hashes r0) as [rj|] eqn:Hrel; cbn;
      [|discriminate].
    intros Hrest k r [[= -> ->]|Hin]%elem_of_cons.
    + destruct (store_revision_lookup revision rj d) as (r' & Hr' & Hsub).
      exists rj, r'. split; [done|]. split; [|done].
      by rewrite (join_loop_other _ _ _ _ _ Hrest Hnin).
    + by eapply IH.
Qed.

(** X19: when the scan of a charm has found a revision with a user and
    GitHub has answered, the loop body ends with a dump in which the last
    revision of the charm is the first (highest) scanned revision and every
    scanned revision has a stored record that contains the joined record:
    each of its fields with its value. *)
Theorem owner_found_records_stored charm s v h hashes :
  charm_data s !! charm = Some v ->
  CharmInfo.get_charmstore_revisions cs charm fuel (stored_last_revision v)
    = Ok h ->
  Main.find_hashes gh h = Ok (Some hashes) ->
  exists d',
    Main.process_charm cs gh fuel charm s =
      Ok (dump (<[ charm := YDict d' ]> (charm_data s))) /\
    last_revision d' = head (PyDict.keys h) /\
    forall (k : Z) (r : record), (k, r) ∈ h ->
      exists rj r', Main.release_loop hashes r = Ok rj /\
                    revisions d' !! k = Some r' /\ rj ⊆ r'.
Proof.
  intros Hv Hscan Hfind.
  assert (Hne : h <> []) by (intros ->; discriminate).
  pose proof (get_revisions_descending _ _ _ _ _ Hscan) as Hdesc.
  pose proof (get_revisions_scanned _ _ _ _ _ Hscan) as Hscanned.
  destruct (join_loop_scanned hashes h (Main.as_details v) Hscanned)
    as [d1 Hjoin].
  rewrite (process_charm_found cs gh fuel charm s v h Hv Hscan Hne).
  rewrite Hfind. cbn. rewrite Hjoin. cbn.
  rewrite (last_sorted_key_head h Hdesc).
  destruct (head (PyDict.keys h)) as [k0|] eqn:Hhead;
    [|by destruct h].
  eexists. split; [reflexivity|]. split; [reflexivity|].
  cbn. eapply join_loop_stores; [|exact Hjoin].
  by apply descending_NoDup.
Qed.
End ReconcilerMore.

Lemma main_keeps_records_witness :
  exists d',
    (Main.main two_new_store one_stable_github 1 tracked_with_record).1
      !! "example" = Some (YDict d') /\
    keeps {| last_revision := Some 10;
             revisions := {[ 10 := {[ "sha" := "c10";
                                      "release" := "stable/22.04" ]} ]} |} d'.
Proof.
  apply (main_keeps_records two_new_store one_stable_github 1
           tracked_with_record "example").
  reflexivity.
Defined.

Lemma nothing_new_no_write_witness :
  Main.main no_remote_store shared_tip_github 1 tracked_at_12 =
  (tracked_at_12, None).
Proof.
  apply (nothing_new_no_write no_remote_store shared_tip_github 1
           tracked_at_12).
  intros charm v Hv. unfold tracked_at_12 in Hv.
  destruct (decide (charm = "example")) as [->|Hne].
  - rewrite lookup_singleton_eq in Hv. injection Hv as <-.
    vm_compute. reflexivity.
  - rewrite lookup_singleton_ne in Hv by done. discriminate.
Defined.

Lemma last_revision_grows_witness :
  exists v',
    (Main.main two_new_store one_stable_github 1 tracked_at_10).1
      !! "example" = Some v' /\
    stored_last_revision
      (YDict {| last_revision := Some 10; revisions := ∅ |})
      <= stored_last_revision v'
      <= Z.max (stored_last_revision
                  (YDict {| last_revision := Some 10; revisions := ∅ |}))
               (Z.of_N 12).
Proof.
  apply (last_revision_grows two_new_store one_stable_github 1 tracked_at_10
           "example" 12
           (YDict {| last_revision := Some 10; revisions := ∅ |})).
  - reflexivity.
  - discriminate.
  - reflexivity.
Defined.

Lemma scan_failure_stops_run_witness :
  (Main.main unknown_charm_store shared_tip_github 1 two_charms).2 <> None /\
  forall c, c ∈ ["alpha"; "beta"] ->
    (Main.main unknown_charm_store shared_tip_github 1 two_charms).1 !! c
    = two_charms !! c.
Proof.
  apply (scan_failure_stops_run unknown_charm_store shared_tip_github 1
           two_charms [] "alpha" ["beta"] YOther CharmstoreError).
  - vm_compute. reflexivity.
  - reflexivity.
  - reflexivity.
Defined.

Lemma github_failure_stops_run_witness :
  (Main.main two_new_store github_down 1 tracked_at_10).2 <> None /\
  forall c, c ∈ ["example"] ->
    (Main.main two_new_store github_down 1 tracked_at_10).1 !! c
    = tracked_at_10 !! c.
Proof.
  apply (github_failure_stops_run two_new_store github_down 1 tracked_at_10
           [] "example" []
           (YDict {| last_revision := Some 10; revisions := ∅ |})
           two_new_result).
  - vm_compute. reflexivity.
  - reflexivity.
  - vm_compute. reflexivity.
  - apply Exists_cons_hd. exists "canonical". reflexivity.
  - reflexivity.
Defined.

Lemma hashes_of_highest_owner_witness :
  Main.find_hashes one_stable_github two_new_result =
  (hashes ← CharmGit.stable_sha_dict one_stable_github
              "canonical" "example-charm";
   Ok (Some hashes)).
Proof.
  apply (hashes_of_highest_owner two_new_store one_stable_github 1 "example"
           10 two_new_result 12
           {[ "sha" := "c12"; "user" := "canonical";
              "repo" := "example-charm" ]}).
  - vm_compute. reflexivity.
  - left.
  - reflexivity.
  - reflexivity.
  - intros revision' r' Hin Hlt. unfold two_new_result in Hin.
    apply elem_of_cons in Hin as [[= -> ->]|Hin]; [lia|].
    apply elem_of_cons in Hin as [[= -> ->]|Hin]; [lia|].
    by apply elem_of_nil in Hin.
Defined.

Lemma owner_found_records_stored_witness :
  exists d',
    Main.process_charm two_new_store one_stable_github 1 "example"
      (dump tracked_at_10) =
      Ok (dump (<[ "example" := YDict d' ]> (charm_data (dump tracked_at_10))))
    /\ last_revision d' = head (PyDict.keys two_new_result) /\
    forall (k : Z) (r : record), (k, r) ∈ two_new_result ->
      exists rj r', Main.release_loop one_stable_hashes r = Ok rj /\
                    revisions d' !! k = Some r' /\ rj ⊆ r'.
Proof.
  apply (owner_found_records_stored two_new_store one_stable_github 1
           "example" (dump tracked_at_10)
           (YDict {| last_revision := Some 10; revisions := ∅ |})
           two_new_result one_stable_hashes).
  - reflexivity.
  - vm_compute. reflexivity.
  - vm_compute. reflexivity.
Defined.
